(** * EDI processing: X12 segment reader, workflow engine, eligibility check

    A shallow embedding of the Python sources
      - [edi/core/models.py]                 (domain models),
      - [edi/core/workflows.py]              (the xworkflows state machine and
                                              [EdiProcessor]),
      - [edi/extensions/x12.py]              ([X12SegmentReader]),
      - [edi/extensions/eligibilitycheck.py] ([EdiEligibilityCheckProcessor]),
      - [edi/cli.py]                         ([process_edi]),
    followed by the properties of the design document that are settled on it.

    Conventions.  A Python [str] that is scanned character by character (an
    X12 interchange, a segment, an element) is a [list ascii]; short literals,
    dictionary keys and exception messages are Stdlib [string]s.  A Python
    [float] is a primitive binary64 [float].  A Python exception is a value of
    [PyError]; code that can raise returns a sum or runs in the monad [M],
    which keeps the mutated state when an exception propagates. *)

From Stdlib Require Import List String Ascii ZArith Bool Lia Floats.
From Stdlib Require Import DecimalString.
From Equations Require Import Equations.
Import ListNotations.

Set Implicit Arguments.
Unset Strict Implicit.

Open Scope list_scope.

(* ===================================================================== *)
(** ** Workflow vocabulary ([EdiWorkflow.states], [EdiWorkflow.transitions]) *)
(* ===================================================================== *)

(** [EdiWorkflow.states]. *)
Inductive State : Type :=
| init | analyzed | enriched | validated | translated | transmitted
| completed | cancelled | failed.

(** The names of [EdiWorkflow.transitions]. *)
Inductive Transition : Type :=
| t_analyze | t_enrich | t_validate | t_translate | t_transmit
| t_complete | t_cancel | t_fail.

Definition State_eqb (a b : State) : bool :=
  match a, b with
  | init, init | analyzed, analyzed | enriched, enriched
  | validated, validated | translated, translated
  | transmitted, transmitted | completed, completed
  | cancelled, cancelled | failed, failed => true
  | _, _ => false
  end.

Definition state_name (s : State) : string :=
  match s with
  | init => "init" | analyzed => "analyzed" | enriched => "enriched"
  | validated => "validated" | translated => "translated"
  | transmitted => "transmitted" | completed => "completed"
  | cancelled => "cancelled" | failed => "failed"
  end.

Definition transition_name (t : Transition) : string :=
  match t with
  | t_analyze => "analyze" | t_enrich => "enrich" | t_validate => "validate"
  | t_translate => "translate" | t_transmit => "transmit"
  | t_complete => "complete" | t_cancel => "cancel" | t_fail => "fail"
  end.

(* ===================================================================== *)
(** ** Python exceptions *)
(* ===================================================================== *)

(** The exceptions the modelled code can raise.  [ExternalError] stands for
    any exception derived from [Exception] that is raised inside a
    collaborator that is not part of these sources (the metadata analyzer,
    the X12 model reader, the HTTP client, the NATS client, the JSON
    decoder); it carries the text [str] gives.  [CancelledError] stands for
    what a collaborator or an [await] raises that is derived from
    [BaseException] only: [asyncio.CancelledError], [KeyboardInterrupt],
    [SystemExit]. *)
Inductive PyError : Type :=
| ValueError (msg : string)
| IndexError (msg : string)
| KeyError (repr_key : string)
| TypeError (msg : string)
| AttributeError (msg : string)
| UnboundLocalError (name : string)
| FileNotFoundError (path : list ascii)
| InvalidTransitionError (t : Transition) (s : State)
| ExternalError (msg : string)
| CancelledError (msg : string).

(** [isinstance(e, Exception)]. *)
Definition is_exception (e : PyError) : bool :=
  match e with
  | CancelledError _ => false
  | _ => true
  end.

(** [str(exception)]. *)
Definition exc_str (e : PyError) : string :=
  match e with
  | ValueError m | IndexError m | TypeError m | AttributeError m
  | ExternalError m | KeyError m | CancelledError m => m
  | UnboundLocalError n =>
      "local variable '" ++ n ++ "' referenced before assignment"
  | FileNotFoundError p =>
      "[Errno 2] No such file or directory: '" ++ string_of_list_ascii p ++ "'"
  | InvalidTransitionError t s =>
      "Transition '" ++ transition_name t ++ "' isn't available from state '"
        ++ state_name s ++ "'."
  end.

(** Pure code that may raise. *)
Definition Res (A : Type) : Type := PyError + A.

Definition rbind {A B} (r : Res A) (k : A -> Res B) : Res B :=
  match r with
  | inl e => inl e
  | inr a => k a
  end.

Declare Scope res_scope.
Delimit Scope res_scope with res.
Notation "x <- r ;; k" := (rbind r (fun x => k))
  (at level 61, r at next level, right associativity) : res_scope.

(* ===================================================================== *)
(** ** Python [str] operations used by the reader *)
(* ===================================================================== *)

Definition text : Type := list ascii.

Definition str (s : string) : text := list_ascii_of_string s.

(** [s.startswith(p)]. *)
Fixpoint startswith (p s : text) : bool :=
  match p, s with
  | [], _ => true
  | _ :: _, [] => false
  | a :: p', b :: s' => Ascii.eqb a b && startswith p' s'
  end.

(** [s[i]] for an integer [i]: a negative index counts from the end, an index
    out of range raises [IndexError]. *)
Definition str_index (s : text) (i : Z) : Res ascii :=
  let n := Z.of_nat (List.length s) in
  let j := (if i <? 0 then i + n else i)%Z in
  if ((j <? 0) || (n <=? j))%Z then inl (IndexError "string index out of range")
  else match nth_error s (Z.to_nat j) with
       | Some c => inr c
       | None => inl (IndexError "string index out of range")
       end.

(** [s[a:b]] for literal bounds [0 <= a <= b]. *)
Definition slice (a b : nat) (s : text) : text := firstn (b - a) (skipn a s).

(** [stream.read(n)] on the unread part of a text stream: the characters read
    and what is left.  A negative size reads everything. *)
Definition read (n : Z) (rest : text) : text * text :=
  if (n <? 0)%Z then (rest, [])
  else (firstn (Z.to_nat n) rest, skipn (Z.to_nat n) rest).

(** [s.split(sep)] for a one-character separator. *)
Fixpoint split (sep : ascii) (s : text) : list text :=
  match s with
  | [] => [[]]
  | c :: r =>
      if Ascii.eqb c sep then [] :: split sep r
      else match split sep r with
           | h :: tl => (c :: h) :: tl
           | [] => [[c]]
           end
  end.

(** [s.rstrip(ch)] for a one-character [ch]: every trailing [ch] goes. *)
Fixpoint rstrip (ch : ascii) (s : text) : text :=
  match s with
  | [] => []
  | c :: r =>
      match rstrip ch r with
      | [] => if Ascii.eqb c ch then [] else [c]
      | r' => c :: r'
      end
  end.

(** [sep.join(parts)]. *)
Fixpoint join (sep : text) (parts : list text) : text :=
  match parts with
  | [] => []
  | [p] => p
  | p :: ps => p ++ sep ++ join sep ps
  end.

(** [buffer[-1]], [None] on the empty string (where Python raises). *)
Definition last_char (s : text) : option ascii :=
  match rev s with
  | c :: _ => Some c
  | [] => None
  end.

(** [f.readlines()] on the decoded content of a file: the lines, each with its
    line feed. *)
Fixpoint readlines_from (cur : text) (s : text) : list text :=
  match s with
  | [] => match cur with [] => [] | _ => [rev cur] end
  | c :: r =>
      if Ascii.eqb c "010"%char then rev (c :: cur) :: readlines_from [] r
      else readlines_from (c :: cur) r
  end.

Definition readlines (s : text) : list text := readlines_from [] s.

Example readlines_ex :
  readlines (str "ab
c") = [str "ab
"; str "c"].
Proof. reflexivity. Qed.

Example split_ex1 : split "~" (str "a~~b~") = [str "a"; []; str "b"; []].
Proof. reflexivity. Qed.

Example rstrip_ex1 : rstrip "~" (str "a~b~~") = str "a~b".
Proof. reflexivity. Qed.

Example join_ex1 : join (str "*") [str "a"; []; str "b"] = str "a**b".
Proof. reflexivity. Qed.

(* ===================================================================== *)
(** ** [edi/extensions/x12.py] *)
(* ===================================================================== *)

(** [X12Config]: offsets into the ISA header and the read buffer size.  The
    values come from the environment; [default_config] holds the defaults
    written in the class. *)
Record X12Config : Type := {
  isa_element_separator : Z;
  isa_repetition_separator : Z;
  isa_segment_length : Z;
  isa_segment_terminator : Z;
  x12_reader_buffer_size : Z
}.

Definition default_config : X12Config := {|
  isa_element_separator := 3;
  isa_repetition_separator := 82;
  isa_segment_length := 106;
  isa_segment_terminator := 105;
  x12_reader_buffer_size := 1024000
|}.

(** An [X12SegmentReader] as [__enter__] returns it: the stream is open and
    the three delimiters are set.  [x12_stream] is the whole content of the
    stream; the read position lives in the functions that read it. *)
Record X12SegmentReader : Type := {
  x12_input : text;
  buffer_size : Z;
  x12_stream : text;
  element_separator : ascii;
  repetition_separator : ascii;
  segment_terminator : ascii
}.

(** [is_x12_data]. *)
Definition is_x12_data (input_data : text) : bool :=
  match input_data with
  | [] => false
  | _ => startswith (str "ISA") input_data
  end.

(** [buffer[-1] != terminator] is false. *)
Definition ends_on (term : ascii) (buffer : text) : bool :=
  match last_char buffer with
  | Some c => Ascii.eqb c term
  | None => false
  end.

(** The inner loop of [segments]: while the buffer does not end on the
    terminator, read one more character, until the stream is exhausted. *)
Fixpoint extend (term : ascii) (buffer rest : text) {struct rest} : text * text :=
  if ends_on term buffer then (buffer, rest)
  else match rest with
       | [] => (buffer, [])
       | c :: rest' => extend term (buffer ++ [c]) rest'
       end.

Lemma read_app (n : Z) (s a b : text) : read n s = (a, b) -> s = a ++ b.
Proof.
  unfold read. destruct (n <? 0)%Z; intros H; inversion H; subst.
  - now rewrite app_nil_r.
  - symmetry. apply firstn_skipn.
Qed.

Lemma extend_app (term : ascii) (rest buffer b r : text) :
  extend term buffer rest = (b, r) ->
  buffer ++ rest = b ++ r /\ List.length buffer <= List.length b.
Proof.
  revert buffer. induction rest as [|c rest IH]; intros buffer; simpl.
  - destruct (ends_on term buffer); intros H; inversion H; subst; auto.
  - destruct (ends_on term buffer).
    + intros H; inversion H; subst; auto.
    + intros H. apply IH in H. destruct H as [H1 H2].
      rewrite <- app_assoc in H1. simpl in H1. split; [exact H1|].
      rewrite length_app in H2. simpl in H2. lia.
Qed.

Definition inspect {A} (a : A) : {b : A | a = b} := exist _ a eq_refl.

(** The outer loop of [segments] on the unread part of the stream: read a
    chunk of [bs] characters, stop on an empty read, extend the chunk to the
    next terminator, yield the pieces of the stripped chunk, and go on. *)
Equations? segments_loop (bs : Z) (term : ascii) (rest : text) : list text
  by wf (List.length rest) lt :=
segments_loop bs term rest with inspect (read bs rest) := {
  | exist _ ([], _) _ => [];
  | exist _ (c :: b, rest1) e1 with inspect (extend term (c :: b) rest1) := {
      | exist _ (buffer, rest2) e2 =>
          split term (rstrip term buffer) ++ segments_loop bs term rest2 } }.
Proof.
  apply read_app in e1. apply extend_app in e2. destruct e2 as [H1 H2].
  subst rest. rewrite H1. rewrite length_app. simpl in H2. lia.
Qed.

Section FileSystem.

(** The files the process can open: a path to the decoded content of the
    file, [None] when the path does not exist or is a directory. *)
Variable fs : text -> option text.

(** [os.path.expandvars(os.path.expanduser(path))]. *)
Variable expand : text -> text.

(** [open(path)]. *)
Definition open_file (path : text) : Res text :=
  match fs path with
  | Some content => inr content
  | None => inl (FileNotFoundError path)
  end.

(** [is_x12_file]. *)
Definition is_x12_file (cfg : X12Config) (file_path : text) : bool :=
  match file_path with
  | [] => false
  | _ =>
      match fs (expand file_path) with
      | None => false
      | Some content =>
          is_x12_data (fst (read (isa_segment_length cfg) content))
      end
  end.

(** The first statement of [__enter__]: which stream is opened. *)
Definition open_stream (cfg : X12Config) (x12_input : text) : Res text :=
  if is_x12_file cfg x12_input then open_file x12_input
  else if is_x12_data x12_input then inr x12_input
  else inl (ValueError
         "Invalid x12_input. Expecting X12 Message or valid path to X12 File").

(** [_set_delimiters]: the three delimiters, read at the configured offsets
    of the first [isa_segment_length] characters. *)
Definition _set_delimiters (cfg : X12Config) (stream : text)
  : Res (ascii * ascii * ascii) :=
  let isa_segment := fst (read (isa_segment_length cfg) stream) in
  (es <- str_index isa_segment (isa_element_separator cfg) ;;
   rs <- str_index isa_segment (isa_repetition_separator cfg) ;;
   st <- str_index isa_segment (isa_segment_terminator cfg) ;;
   inr (es, rs, st))%res.

(** [X12SegmentReader(x12_input).__enter__()] under the configuration [cfg]. *)
Definition __enter__ (cfg : X12Config) (x12_input : text) : Res X12SegmentReader :=
  (stream <- open_stream cfg x12_input ;;
   match fst (read (isa_segment_length cfg) stream) with
   | [] => inl (ValueError "Invalid X12Stream")
   | _ :: _ =>
       d <- _set_delimiters cfg stream ;;
       let '(es, rs, st) := d in
       inr {| x12_input := x12_input;
              buffer_size := x12_reader_buffer_size cfg;
              x12_stream := stream;
              element_separator := es;
              repetition_separator := rs;
              segment_terminator := st |}
   end)%res.

End FileSystem.

(** [segments]: the generator's items, in order.  It seeks to the start of
    the stream, so the header segment is the first item. *)
Definition segments (r : X12SegmentReader) : list text :=
  segments_loop (buffer_size r) (segment_terminator r) (x12_stream r).

(** [elements]: the delimiter is a string of at most one character (a header
    character, or the slice [segment[3:4]]); [str.split] refuses the empty
    one. *)
Definition elements (segment : text) (delimiter : option ascii) : Res (list text) :=
  match delimiter with
  | Some d => inr (split d segment)
  | None => inl (ValueError "empty separator")
  end.

(** [for segment in r.segments(): r.elements(segment, r.element_separator)]:
    the decoded interchange, segment by segment. *)
Fixpoint map_res {A B} (f : A -> Res B) (l : list A) : Res (list B) :=
  match l with
  | [] => inr []
  | a :: l' => (b <- f a ;; bs <- map_res f l' ;; inr (b :: bs))%res
  end.

Definition decode (r : X12SegmentReader) : Res (list (list text)) :=
  map_res (fun segment => elements segment (Some (element_separator r)))
          (segments r).

(* ===================================================================== *)
(** ** Python values: parsed models, JSON payloads, request resources *)
(* ===================================================================== *)

(** The values of the dictionaries the code subscripts: what [json.loads]
    returns and what a pydantic model's [dict()] holds.  A dictionary is an
    association list, looked up from the front. *)
#[warnings="-register-all"]
Inductive PyVal : Type :=
| PNone
| PBool (b : bool)
| PInt (z : Z)
| PStr (s : string)
| PList (l : list PyVal)
| PDict (d : list (string * PyVal)).

Fixpoint assoc {A} (k : string) (d : list (string * A)) : option A :=
  match d with
  | [] => None
  | (k', v) :: d' => if String.eqb k k' then Some v else assoc k d'
  end.

(** [a == b]. *)
Fixpoint py_eqb (a b : PyVal) : bool :=
  match a, b with
  | PNone, PNone => true
  | PBool x, PBool y => Bool.eqb x y
  | PBool x, PInt z | PInt z, PBool x => Z.eqb z (if x then 1 else 0)
  | PInt x, PInt y => Z.eqb x y
  | PStr x, PStr y => String.eqb x y
  | PList x, PList y =>
      (fix go (x y : list PyVal) : bool :=
         match x, y with
         | [], [] => true
         | u :: x', v :: y' => py_eqb u v && go x' y'
         | _, _ => false
         end) x y
  | PDict x, PDict y =>
      Nat.eqb (List.length x) (List.length y)
      && (fix go (x : list (string * PyVal)) : bool :=
            match x with
            | [] => true
            | (k, u) :: x' =>
                match assoc k y with
                | Some v => py_eqb u v && go x'
                | None => false
                end
            end) x
  | _, _ => false
  end.

(** The truth value of [v] in a condition. *)
Definition truthy (v : PyVal) : bool :=
  match v with
  | PNone => false
  | PBool b => b
  | PInt z => negb (Z.eqb z 0)
  | PStr s => negb (String.eqb s "")
  | PList l => match l with [] => false | _ => true end
  | PDict d => match d with [] => false | _ => true end
  end.

(** A subscript: [v["key"]] or [v[i]] with a literal index. *)
Inductive Sub : Type :=
| Key (k : string)
| Idx (i : nat).

Definition repr_str (k : string) : string := ("'" ++ k ++ "'")%string.

(** [v[s]]. *)
Definition getitem (v : PyVal) (s : Sub) : Res PyVal :=
  match v, s with
  | PDict d, Key k =>
      match assoc k d with
      | Some x => inr x
      | None => inl (KeyError (repr_str k))
      end
  | PDict d, Idx i => inl (KeyError (NilZero.string_of_uint (Nat.to_uint i)))
  | PList l, Idx i =>
      match nth_error l i with
      | Some x => inr x
      | None => inl (IndexError "list index out of range")
      end
  | PList _, Key _ =>
      inl (TypeError "list indices must be integers or slices, not str")
  | PStr x, Idx i =>
      match String.get i x with
      | Some c => inr (PStr (String c EmptyString))
      | None => inl (IndexError "string index out of range")
      end
  | PStr _, Key _ => inl (TypeError "string indices must be integers")
  | PNone, _ => inl (TypeError "'NoneType' object is not subscriptable")
  | PBool _, _ => inl (TypeError "'bool' object is not subscriptable")
  | PInt _, _ => inl (TypeError "'int' object is not subscriptable")
  end.

(** A chain of subscripts [v[s1][s2]...], left to right. *)
Fixpoint getpath (path : list Sub) (v : PyVal) : Res PyVal :=
  match path with
  | [] => inr v
  | s :: path' => (x <- getitem v s ;; getpath path' x)%res
  end.

(** The faults a subscript raises when what it names is not there. *)
Definition is_missing_field (e : PyError) : bool :=
  match e with
  | KeyError _ | IndexError _ | TypeError _ => true
  | _ => false
  end.

(* ===================================================================== *)
(** ** [edi/core/models.py] *)
(* ===================================================================== *)

Inductive BaseMessageType : Type := JSON | TEXT | XML.

Inductive EdiMessageType : Type := FHIR | HL7 | X12.

Inductive EdiOperations : Type :=
| ANALYZE | ENRICH | VALIDATE | TRANSLATE | TRANSMIT | COMPLETE | CANCEL | FAIL.

Definition EdiOperations_eqb (a b : EdiOperations) : bool :=
  match a, b with
  | ANALYZE, ANALYZE | ENRICH, ENRICH | VALIDATE, VALIDATE
  | TRANSLATE, TRANSLATE | TRANSMIT, TRANSMIT | COMPLETE, COMPLETE
  | CANCEL, CANCEL | FAIL, FAIL => true
  | _, _ => false
  end.

Record EdiMessageMetadata : Type := {
  baseMessageType : BaseMessageType;
  messageType : EdiMessageType;
  specificationVersion : string;
  implementationVersions : option (list string);
  messageSize : Z;
  recordCount : Z;
  checksum : string
}.

Record EdiProcessingMetrics : Type := {
  analyzeTime : float;
  enrichTime : float;
  validateTime : float;
  translateTime : float;
  transmitTime : float;
  totalTime : float
}.

(** The sum [EdiProcessingMetrics.__init__] stores in [totalTime]. *)
Definition stage_sum (m : EdiProcessingMetrics) : float :=
  (analyzeTime m + enrichTime m + validateTime m + translateTime m
   + transmitTime m)%float.

(** [EdiProcessingMetrics] called with keyword arguments: the fields are set from the keyword
    arguments, then [totalTime] is overwritten with the sum of the five stage
    times.  [kwargs] is given as a record; its [totalTime] is the keyword
    argument of that name (0.0 when left out). *)
Definition EdiProcessingMetrics_init (kwargs : EdiProcessingMetrics)
  : EdiProcessingMetrics :=
  {| analyzeTime := analyzeTime kwargs;
     enrichTime := enrichTime kwargs;
     validateTime := validateTime kwargs;
     translateTime := translateTime kwargs;
     transmitTime := transmitTime kwargs;
     totalTime := stage_sum kwargs |}.

(** Attribute assignment on a metrics object ([self.metrics.analyzeTime =
    elapsed_time] and its siblings): the one field changes, nothing else is
    recomputed. *)
Definition set_analyzeTime (x : float) (m : EdiProcessingMetrics) :=
  {| analyzeTime := x; enrichTime := enrichTime m;
     validateTime := validateTime m; translateTime := translateTime m;
     transmitTime := transmitTime m; totalTime := totalTime m |}.

Definition set_enrichTime (x : float) (m : EdiProcessingMetrics) :=
  {| analyzeTime := analyzeTime m; enrichTime := x;
     validateTime := validateTime m; translateTime := translateTime m;
     transmitTime := transmitTime m; totalTime := totalTime m |}.

Definition set_validateTime (x : float) (m : EdiProcessingMetrics) :=
  {| analyzeTime := analyzeTime m; enrichTime := enrichTime m;
     validateTime := x; translateTime := translateTime m;
     transmitTime := transmitTime m; totalTime := totalTime m |}.

Definition set_translateTime (x : float) (m : EdiProcessingMetrics) :=
  {| analyzeTime := analyzeTime m; enrichTime := enrichTime m;
     validateTime := validateTime m; translateTime := x;
     transmitTime := transmitTime m; totalTime := totalTime m |}.

Definition set_transmitTime (x : float) (m : EdiProcessingMetrics) :=
  {| analyzeTime := analyzeTime m; enrichTime := enrichTime m;
     validateTime := validateTime m; translateTime := translateTime m;
     transmitTime := x; totalTime := totalTime m |}.

(** [EdiResult].  An entry of [errors] is a dictionary. *)
Record EdiResult : Type := {
  metadata : option EdiMessageMetadata;
  metrics_of : option EdiProcessingMetrics;
  inputMessage : text;
  operations_of : list EdiOperations;
  errors : list PyVal
}.

Definition append_error (e : PyVal) (r : EdiResult) : EdiResult :=
  {| metadata := metadata r; metrics_of := metrics_of r;
     inputMessage := inputMessage r; operations_of := operations_of r;
     errors := errors r ++ [e] |}.

(* ===================================================================== *)
(** ** The processor object, its environment, and the effect monad *)
(* ===================================================================== *)

(** The NATS client as far as the code drives it: connected or not, and the
    subjects it is subscribed to. *)
Record NatsClient : Type := {
  is_connected : bool;
  subscriptions : list string
}.

(** A message the NATS client hands to the callback. *)
Record Msg : Type := {
  subject : string;
  reply : string;
  data : list Byte.byte
}.

(** The attributes of an [EdiEligibilityCheckProcessor]: those of
    [EdiProcessor] (with [state], the xworkflows state field) and the ones the
    subclass adds. *)
Record Processor : Type := {
  state : State;
  input_message : text;
  meta_data : option EdiMessageMetadata;
  metrics : EdiProcessingMetrics;
  operations : list EdiOperations;
  transmit_data : PyVal;
  transmit_result : option text;
  transmit_status_code : option Z;
  message_received : bool;
  subscriber_last : PyVal;
  subscriber_first : PyVal;
  subscriber_id : PyVal;
  insurer_name : PyVal;
  insurer_id : PyVal;
  provider_name : PyVal;
  provider_id : PyVal;
  transaction_id : PyVal;
  nats_client : option NatsClient
}.

(** What surrounds the processor and changes as it runs: how often the clock
    was read, how many turns the event loop took while the flow was suspended,
    and the rewritten templates the callback printed (["271 result: ..."]). *)
Record Machine : Type := {
  proc : Processor;
  ticks : nat;
  turns : nat;
  printed : list text
}.

(** The collaborators that are not part of these sources, as the code calls
    them. *)
Record Env : Type := {
  (** [get_config()] *)
  cfg : X12Config;
  (** the file system: [open], [os.path.exists] *)
  fs : text -> option text;
  (** [os.path.expandvars(os.path.expanduser(.))] *)
  expand : text -> text;
  (** [perf_counter_ms()], by the number of earlier reads *)
  clock : nat -> float;
  (** [EdiAnalyzer(input_message).analyze()] *)
  analyzer : text -> Res EdiMessageMetadata;
  (** [X12ModelReader(input_message)]: the [dict()] of each model it yields *)
  x12_models : text -> Res (list PyVal);
  (** [client.post(url, json=resource)]: the response text and status code *)
  http_post : PyVal -> Res (text * Z);
  (** [datetime.date.today().isoformat()] *)
  today : string;
  (** loading the CA file into the TLS context *)
  tls_setup : Res unit;
  (** [nats_client.connect(...)] *)
  nats_connect : Res unit;
  (** the messages the broker pushes during each turn of the event loop *)
  inbox : nat -> list Msg;
  (** [json.loads(msg.data.decode())] *)
  decode_payload : list Byte.byte -> Res PyVal
}.

(** How a call ends: it returns, it raises, or (for the unbounded wait on the
    correlation flag) it is still suspended when the observed turns are used
    up. *)
Inductive Outcome (A : Type) : Type :=
| Returned (a : A)
| Raised (e : PyError)
| Pending.

Arguments Raised {A} e.
Arguments Pending {A}.

(** Code that reads and mutates the machine.  The machine is returned in every
    case: what a call mutated before it raised stays mutated. *)
Definition M (A : Type) : Type := Machine -> Outcome A * Machine.

Definition ret {A} (a : A) : M A := fun m => (Returned a, m).

Definition bind {A B} (c : M A) (k : A -> M B) : M B :=
  fun m =>
    match c m with
    | (Returned a, m') => k a m'
    | (Raised e, m') => (Raised e, m')
    | (Pending, m') => (Pending, m')
    end.

Definition raise {A} (e : PyError) : M A := fun m => (Raised e, m).

Definition lift {A} (r : Res A) : M A :=
  match r with
  | inl e => raise e
  | inr a => ret a
  end.

Declare Scope m_scope.
Delimit Scope m_scope with M.
Notation "x <- c ;; k" := (bind c (fun x => k))
  (at level 61, c at next level, right associativity) : m_scope.
Notation "c ;; k" := (bind c (fun _ => k))
  (at level 61, right associativity) : m_scope.

(** [self]. *)
Definition self : M Processor := fun m => (Returned (proc m), m).

(** An update of the processor's attributes. *)
Definition with_proc (f : Processor -> Processor) (m : Machine) : Machine :=
  {| proc := f (proc m); ticks := ticks m; turns := turns m;
     printed := printed m |}.

Definition modify (f : Processor -> Processor) : M unit :=
  fun m => (Returned tt, with_proc f m).

(** [for x in xs: body(x)]. *)
Fixpoint for_each {A} (xs : list A) (body : A -> M unit) : M unit :=
  match xs with
  | [] => ret tt
  | x :: xs' => (body x ;; for_each xs' body)%M
  end.

(** *** Attribute assignments *)

Definition set_state (x : State) (p : Processor) : Processor :=
  {| state := x; input_message := input_message p; meta_data := meta_data p;
     metrics := metrics p; operations := operations p;
     transmit_data := transmit_data p; transmit_result := transmit_result p;
     transmit_status_code := transmit_status_code p;
     message_received := message_received p;
     subscriber_last := subscriber_last p;
     subscriber_first := subscriber_first p; subscriber_id := subscriber_id p;
     insurer_name := insurer_name p; insurer_id := insurer_id p;
     provider_name := provider_name p; provider_id := provider_id p;
     transaction_id := transaction_id p; nats_client := nats_client p |}.

Definition set_meta_data (x : option EdiMessageMetadata) (p : Processor) :=
  {| state := state p; input_message := input_message p; meta_data := x;
     metrics := metrics p; operations := operations p;
     transmit_data := transmit_data p; transmit_result := transmit_result p;
     transmit_status_code := transmit_status_code p;
     message_received := message_received p;
     subscriber_last := subscriber_last p;
     subscriber_first := subscriber_first p; subscriber_id := subscriber_id p;
     insurer_name := insurer_name p; insurer_id := insurer_id p;
     provider_name := provider_name p; provider_id := provider_id p;
     transaction_id := transaction_id p; nats_client := nats_client p |}.

Definition set_metrics (x : EdiProcessingMetrics) (p : Processor) :=
  {| state := state p; input_message := input_message p;
     meta_data := meta_data p; metrics := x; operations := operations p;
     transmit_data := transmit_data p; transmit_result := transmit_result p;
     transmit_status_code := transmit_status_code p;
     message_received := message_received p;
     subscriber_last := subscriber_last p;
     subscriber_first := subscriber_first p; subscriber_id := subscriber_id p;
     insurer_name := insurer_name p; insurer_id := insurer_id p;
     provider_name := provider_name p; provider_id := provider_id p;
     transaction_id := transaction_id p; nats_client := nats_client p |}.

Definition set_operations (x : list EdiOperations) (p : Processor) :=
  {| state := state p; input_message := input_message p;
     meta_data := meta_data p; metrics := metrics p; operations := x;
     transmit_data := transmit_data p; transmit_result := transmit_result p;
     transmit_status_code := transmit_status_code p;
     message_received := message_received p;
     subscriber_last := subscriber_last p;
     subscriber_first := subscriber_first p; subscriber_id := subscriber_id p;
     insurer_name := insurer_name p; insurer_id := insurer_id p;
     provider_name := provider_name p; provider_id := provider_id p;
     transaction_id := transaction_id p; nats_client := nats_client p |}.

Definition set_transmit_data (x : PyVal) (p : Processor) :=
  {| state := state p; input_message := input_message p;
     meta_data := meta_data p; metrics := metrics p;
     operations := operations p; transmit_data := x;
     transmit_result := transmit_result p;
     transmit_status_code := transmit_status_code p;
     message_received := message_received p;
     subscriber_last := subscriber_last p;
     subscriber_first := subscriber_first p; subscriber_id := subscriber_id p;
     insurer_name := insurer_name p; insurer_id := insurer_id p;
     provider_name := provider_name p; provider_id := provider_id p;
     transaction_id := transaction_id p; nats_client := nats_client p |}.

Definition set_transmit_result (x : option text) (p : Processor) :=
  {| state := state p; input_message := input_message p;
     meta_data := meta_data p; metrics := metrics p;
     operations := operations p; transmit_data := transmit_data p;
     transmit_result := x;
     transmit_status_code := transmit_status_code p;
     message_received := message_received p;
     subscriber_last := subscriber_last p;
     subscriber_first := subscriber_first p; subscriber_id := subscriber_id p;
     insurer_name := insurer_name p; insurer_id := insurer_id p;
     provider_name := provider_name p; provider_id := provider_id p;
     transaction_id := transaction_id p; nats_client := nats_client p |}.

Definition set_transmit_status_code (x : option Z) (p : Processor) :=
  {| state := state p; input_message := input_message p;
     meta_data := meta_data p; metrics := metrics p;
     operations := operations p; transmit_data := transmit_data p;
     transmit_result := transmit_result p;
     transmit_status_code := x;
     message_received := message_received p;
     subscriber_last := subscriber_last p;
     subscriber_first := subscriber_first p; subscriber_id := subscriber_id p;
     insurer_name := insurer_name p; insurer_id := insurer_id p;
     provider_name := provider_name p; provider_id := provider_id p;
     transaction_id := transaction_id p; nats_client := nats_client p |}.

Definition set_message_received (x : bool) (p : Processor) :=
  {| state := state p; input_message := input_message p;
     meta_data := meta_data p; metrics := metrics p;
     operations := operations p; transmit_data := transmit_data p;
     transmit_result := transmit_result p;
     transmit_status_code := transmit_status_code p;
     message_received := x;
     subscriber_last := subscriber_last p;
     subscriber_first := subscriber_first p; subscriber_id := subscriber_id p;
     insurer_name := insurer_name p; insurer_id := insurer_id p;
     provider_name := provider_name p; provider_id := provider_id p;
     transaction_id := transaction_id p; nats_client := nats_client p |}.

Definition set_subscriber_last (x : PyVal) (p : Processor) :=
  {| state := state p; input_message := input_message p;
     meta_data := meta_data p; metrics := metrics p;
     operations := operations p; transmit_data := transmit_data p;
     transmit_result := transmit_result p;
     transmit_status_code := transmit_status_code p;
     message_received := message_received p;
     subscriber_last := x;
     subscriber_first := subscriber_first p; subscriber_id := subscriber_id p;
     insurer_name := insurer_name p; insurer_id := insurer_id p;
     provider_name := provider_name p; provider_id := provider_id p;
     transaction_id := transaction_id p; nats_client := nats_client p |}.

Definition set_subscriber_first (x : PyVal) (p : Processor) :=
  {| state := state p; input_message := input_message p;
     meta_data := meta_data p; metrics := metrics p;
     operations := operations p; transmit_data := transmit_data p;
     transmit_result := transmit_result p;
     transmit_status_code := transmit_status_code p;
     message_received := message_received p;
     subscriber_last := subscriber_last p;
     subscriber_first := x; subscriber_id := subscriber_id p;
     insurer_name := insurer_name p; insurer_id := insurer_id p;
     provider_name := provider_name p; provider_id := provider_id p;
     transaction_id := transaction_id p; nats_client := nats_client p |}.

Definition set_subscriber_id (x : PyVal) (p : Processor) :=
  {| state := state p; input_message := input_message p;
     meta_data := meta_data p; metrics := metrics p;
     operations := operations p; transmit_data := transmit_data p;
     transmit_result := transmit_result p;
     transmit_status_code := transmit_status_code p;
     message_received := message_received p;
     subscriber_last := subscriber_last p;
     subscriber_first := subscriber_first p; subscriber_id := x;
     insurer_name := insurer_name p; insurer_id := insurer_id p;
     provider_name := provider_name p; provider_id := provider_id p;
     transaction_id := transaction_id p; nats_client := nats_client p |}.

Definition set_insurer_name (x : PyVal) (p : Processor) :=
  {| state := state p; input_message := input_message p;
     meta_data := meta_data p; metrics := metrics p;
     operations := operations p; transmit_data := transmit_data p;
     transmit_result := transmit_result p;
     transmit_status_code := transmit_status_code p;
     message_received := message_received p;
     subscriber_last := subscriber_last p;
     subscriber_first := subscriber_first p; subscriber_id := subscriber_id p;
     insurer_name := x; insurer_id := insurer_id p;
     provider_name := provider_name p; provider_id := provider_id p;
     transaction_id := transaction_id p; nats_client := nats_client p |}.

Definition set_insurer_id (x : PyVal) (p : Processor) :=
  {| state := state p; input_message := input_message p;
     meta_data := meta_data p; metrics := metrics p;
     operations := operations p; transmit_data := transmit_data p;
     transmit_result := transmit_result p;
     transmit_status_code := transmit_status_code p;
     message_received := message_received p;
     subscriber_last := subscriber_last p;
     subscriber_first := subscriber_first p; subscriber_id := subscriber_id p;
     insurer_name := insurer_name p; insurer_id := x;
     provider_name := provider_name p; provider_id := provider_id p;
     transaction_id := transaction_id p; nats_client := nats_client p |}.

Definition set_provider_name (x : PyVal) (p : Processor) :=
  {| state := state p; input_message := input_message p;
     meta_data := meta_data p; metrics := metrics p;
     operations := operations p; transmit_data := transmit_data p;
     transmit_result := transmit_result p;
     transmit_status_code := transmit_status_code p;
     message_received := message_received p;
     subscriber_last := subscriber_last p;
     subscriber_first := subscriber_first p; subscriber_id := subscriber_id p;
     insurer_name := insurer_name p; insurer_id := insurer_id p;
     provider_name := x; provider_id := provider_id p;
     transaction_id := transaction_id p; nats_client := nats_client p |}.

Definition set_provider_id (x : PyVal) (p : Processor) :=
  {| state := state p; input_message := input_message p;
     meta_data := meta_data p; metrics := metrics p;
     operations := operations p; transmit_data := transmit_data p;
     transmit_result := transmit_result p;
     transmit_status_code := transmit_status_code p;
     message_received := message_received p;
     subscriber_last := subscriber_last p;
     subscriber_first := subscriber_first p; subscriber_id := subscriber_id p;
     insurer_name := insurer_name p; insurer_id := insurer_id p;
     provider_name := provider_name p; provider_id := x;
     transaction_id := transaction_id p; nats_client := nats_client p |}.

Definition set_transaction_id (x : PyVal) (p : Processor) :=
  {| state := state p; input_message := input_message p;
     meta_data := meta_data p; metrics := metrics p;
     operations := operations p; transmit_data := transmit_data p;
     transmit_result := transmit_result p;
     transmit_status_code := transmit_status_code p;
     message_received := message_received p;
     subscriber_last := subscriber_last p;
     subscriber_first := subscriber_first p; subscriber_id := subscriber_id p;
     insurer_name := insurer_name p; insurer_id := insurer_id p;
     provider_name := provider_name p; provider_id := provider_id p;
     transaction_id := x; nats_client := nats_client p |}.

Definition set_nats_client (x : option NatsClient) (p : Processor) :=
  {| state := state p; input_message := input_message p;
     meta_data := meta_data p; metrics := metrics p;
     operations := operations p; transmit_data := transmit_data p;
     transmit_result := transmit_result p;
     transmit_status_code := transmit_status_code p;
     message_received := message_received p;
     subscriber_last := subscriber_last p;
     subscriber_first := subscriber_first p; subscriber_id := subscriber_id p;
     insurer_name := insurer_name p; insurer_id := insurer_id p;
     provider_name := provider_name p; provider_id := provider_id p;
     transaction_id := transaction_id p; nats_client := x |}.

(** [self.operations.append(op)]. *)
Definition operations_append (op : EdiOperations) : M unit :=
  modify (fun p => set_operations (operations p ++ [op]) p).

(** [EdiEligibilityCheckProcessor(input_message)]: the subclass sets its own
    attributes to [None] and calls [EdiProcessor.__init__], which builds the
    metrics object from five zero stage times. *)
Definition EdiEligibilityCheckProcessor_init (message : text) : Processor :=
  {| state := init;
     input_message := message;
     meta_data := None;
     metrics := EdiProcessingMetrics_init
                  {| analyzeTime := 0; enrichTime := 0; validateTime := 0;
                     translateTime := 0; transmitTime := 0; totalTime := 0 |};
     operations := [];
     transmit_data := PNone;
     transmit_result := None;
     transmit_status_code := None;
     message_received := false;
     subscriber_last := PNone; subscriber_first := PNone;
     subscriber_id := PNone; insurer_name := PNone; insurer_id := PNone;
     provider_name := PNone; provider_id := PNone; transaction_id := PNone;
     nats_client := None |}.

(* ===================================================================== *)
(** ** [edi/core/workflows.py]: the workflow and the xworkflows wrapper *)
(* ===================================================================== *)

(** [EdiWorkflow.transitions]: the source states of each transition. *)
Definition sources (t : Transition) : list State :=
  match t with
  | t_analyze => [init]
  | t_enrich => [analyzed]
  | t_validate => [analyzed; enriched]
  | t_translate => [analyzed; enriched; validated]
  | t_transmit => [analyzed; enriched; validated; translated]
  | t_complete => [analyzed; enriched; validated; translated; transmitted]
  | t_cancel => [init; analyzed; enriched; validated; translated; transmitted]
  | t_fail => [init; analyzed; enriched; validated; translated; transmitted]
  end.

(** [EdiWorkflow.transitions]: the target state of each transition. *)
Definition target (t : Transition) : State :=
  match t with
  | t_analyze => analyzed
  | t_enrich => enriched
  | t_validate => validated
  | t_translate => translated
  | t_transmit => transmitted
  | t_complete => completed
  | t_cancel => cancelled
  | t_fail => failed
  end.

(** [current_state in transition.source]. *)
Definition is_available (t : Transition) (s : State) : bool :=
  existsb (State_eqb s) (sources t).

(** [completed], [cancelled] and [failed] end the workflow. *)
Definition is_terminal (s : State) : bool :=
  match s with
  | completed | cancelled | failed => true
  | _ => false
  end.

(** What xworkflows' [@transition(name)] makes of a plain method: the call
    raises [InvalidTransitionError] unless the current state is a source of
    the transition; otherwise the method body runs, and once it has returned
    the state field is set to the target.  A body that raises leaves the state
    where it was. *)
Definition transition {A} (t : Transition) (implementation : M A) : M A :=
  fun m =>
    if is_available t (state (proc m)) then
      match implementation m with
      | (Returned a, m') => (Returned a, with_proc (set_state (target t)) m')
      | other => other
      end
    else (Raised (InvalidTransitionError t (state (proc m))), m).

(** The same decorator on an [async def]: calling the method only creates the
    coroutine, so the wrapper sets the target state at once and the body runs
    when the coroutine is awaited.  Every call in these sources is awaited on
    the spot, so call and await are one step here: the guard, the state
    change, then the body. *)
Definition async_transition {A} (t : Transition) (implementation : M A) : M A :=
  fun m =>
    if is_available t (state (proc m)) then
      implementation (with_proc (set_state (target t)) m)
    else (Raised (InvalidTransitionError t (state (proc m))), m).

(** [_create_edi_result].  [self.metrics.dict()] is passed to [EdiResult],
    whose validation of the [metrics] field builds a new
    [EdiProcessingMetrics] from the dictionary, running its [__init__]; the
    operation list is validated into a list of its own. *)
Definition _create_edi_result (p : Processor) : EdiResult :=
  {| metadata := meta_data p;
     metrics_of := Some (EdiProcessingMetrics_init (metrics p));
     inputMessage := input_message p;
     operations_of := operations p;
     errors := [] |}.

Section Workflow.

Variable env : Env.

(** [perf_counter_ms()]. *)
Definition perf_counter_ms : M float :=
  fun m => (Returned (clock env (ticks m)),
            {| proc := proc m; ticks := S (ticks m); turns := turns m;
               printed := printed m |}).

(** [EdiProcessor.analyze]. *)
Definition analyze : M unit :=
  transition t_analyze
    (start <- perf_counter_ms ;;
     p <- self ;;
     md <- lift (analyzer env (input_message p)) ;;
     modify (set_meta_data (Some md)) ;;
     stop <- perf_counter_ms ;;
     let elapsed_time := (stop - start)%float in
     modify (fun p => set_metrics (set_analyzeTime elapsed_time (metrics p)) p) ;;
     operations_append ANALYZE)%M.

(** [EdiProcessor.enrich]. *)
Definition enrich : M unit :=
  transition t_enrich
    (start <- perf_counter_ms ;;
     stop <- perf_counter_ms ;;
     let elapsed_time := (stop - start)%float in
     modify (fun p => set_metrics (set_enrichTime elapsed_time (metrics p)) p) ;;
     operations_append ENRICH)%M.

(** [EdiProcessor.validate]. *)
Definition validate : M unit :=
  transition t_validate
    (start <- perf_counter_ms ;;
     stop <- perf_counter_ms ;;
     let elapsed_time := (stop - start)%float in
     modify (fun p => set_metrics (set_validateTime elapsed_time (metrics p)) p) ;;
     operations_append VALIDATE)%M.

(** [EdiProcessor.translate], the method the eligibility processor
    overrides. *)
Definition EdiProcessor_translate : M unit :=
  async_transition t_translate
    (start <- perf_counter_ms ;;
     stop <- perf_counter_ms ;;
     let elapsed_time := (stop - start)%float in
     modify (fun p => set_metrics (set_translateTime elapsed_time (metrics p)) p) ;;
     operations_append TRANSLATE)%M.

(** [EdiProcessor.complete]. *)
Definition complete : M EdiResult :=
  transition t_complete
    (operations_append COMPLETE ;;
     p <- self ;;
     ret (_create_edi_result p))%M.

(** [EdiProcessor.cancel]. *)
Definition cancel : M EdiResult :=
  transition t_cancel
    (operations_append CANCEL ;;
     p <- self ;;
     ret (_create_edi_result p))%M.

(** [EdiProcessor.fail]. *)
Definition fail (reason : string) (exception : option PyError) : M EdiResult :=
  transition t_fail
    (operations_append FAIL ;;
     p <- self ;;
     let edi_result :=
       append_error (PDict [("msg"%string, PStr reason)]) (_create_edi_result p) in
     match exception with
     | Some ex =>
         ret (append_error (PDict [("msg"%string, PStr (exc_str ex))]) edi_result)
     | None => ret edi_result
     end)%M.

(* --------------------------------------------------------------------- *)
(** *** [edi/extensions/eligibilitycheck.py] *)
(* --------------------------------------------------------------------- *)

(** [_get_patient_reference]: [None] unless the triple is the known one. *)
Definition _get_patient_reference (last first _id : PyVal) : PyVal :=
  if py_eqb last (PStr "DOE") && py_eqb first (PStr "JOHN")
     && py_eqb _id (PStr "11122333301")
  then PStr "Patient/001" else PNone.

(** [_get_insurer_reference]. *)
Definition _get_insurer_reference (name _id : PyVal) : PyVal :=
  if py_eqb name (PStr "UNIFIED INSURANCE CO") && py_eqb _id (PStr "842610001")
  then PStr "Organization/001" else PNone.

(** [_get_coverage_reference]. *)
Definition _get_coverage_reference (last first _id : PyVal) : PyVal :=
  if py_eqb last (PStr "DOE") && py_eqb first (PStr "JOHN")
     && py_eqb _id (PStr "11122333301")
  then PStr "Coverage/9876B1" else PNone.

Local Open Scope string_scope.

(** The double quote character, as a string. *)
Definition dquote : string := String "034"%char EmptyString.

(** [_create_request]. *)
Definition _create_request (p : Processor) : PyVal :=
  let patient_ref :=
    _get_patient_reference (subscriber_last p) (subscriber_first p) (subscriber_id p) in
  let insurer_ref := _get_insurer_reference (insurer_name p) (insurer_id p) in
  let coverage_ref :=
    _get_coverage_reference (subscriber_last p) (subscriber_first p) (subscriber_id p) in
  PDict [
    ("resourceType", PStr "CoverageEligibilityRequest");
    ("id", transaction_id p);
    ("text", PDict [
       ("status", PStr "generated");
       ("div", PStr ("<div xmlns=" ++ dquote ++ "http://www.w3.org/1999/xhtml"
                     ++ dquote ++ ">A human-readable rendering of the "
                     ++ "CoverageEligibilityRequest</div>"))]);
    ("identifier", PList [PDict [
       ("system", PStr "http://happyvalley.com/coverageelegibilityrequest");
       ("value", transaction_id p)]]);
    ("status", PStr "active");
    ("priority", PDict [("coding", PList [PDict [("code", PStr "normal")]])]);
    ("purpose", PList [PStr "validation"]);
    ("patient", PDict [("reference", patient_ref)]);
    ("created", PStr (today env));
    ("provider", PDict [("reference", PStr "Organization/1")]);
    ("insurer", PDict [("reference", insurer_ref)]);
    ("insurance", PList [PDict [
       ("focal", PBool true);
       ("coverage", PDict [("reference", coverage_ref)])]])
  ].

(** The subscript chains of [translate] that lead to the segments it reads. *)
Definition loop_2000c : list Sub :=
  [Key "loop_2000a"; Idx 0; Key "loop_2000b"; Idx 0; Key "loop_2000c"; Idx 0].

Definition subscriber_segment : list Sub :=
  loop_2000c ++ [Key "loop_2100c"; Key "nm1_segment"].

Definition trn_segment : list Sub := loop_2000c ++ [Key "trn_segment"; Idx 0].

Definition insurer_segment : list Sub :=
  [Key "loop_2000a"; Idx 0; Key "loop_2100a"; Key "nm1_segment"].

Definition provider_segment : list Sub :=
  [Key "loop_2000a"; Idx 0; Key "loop_2000b"; Idx 0; Key "loop_2100b";
   Key "nm1_segment"].

(** [self.attr = segment[key]]. *)
Definition assign (set : PyVal -> Processor -> Processor) (segment : PyVal)
    (key : string) : M unit :=
  (v <- lift (getitem segment (Key key)) ;; modify (set v))%M.

(** The body of [for model in models:] in [translate]. *)
Definition translate_model (start : float) (model : PyVal) : M unit :=
  (segment <- lift (getpath subscriber_segment model) ;;
   assign set_subscriber_last segment "name_last_or_organization_name" ;;
   assign set_subscriber_first segment "name_first" ;;
   assign set_subscriber_id segment "identification_code" ;;
   segment <- lift (getpath trn_segment model) ;;
   assign set_transaction_id segment "originating_company_identifier" ;;
   segment <- lift (getpath insurer_segment model) ;;
   assign set_insurer_name segment "name_last_or_organization_name" ;;
   assign set_insurer_id segment "identification_code" ;;
   segment <- lift (getpath provider_segment model) ;;
   assign set_provider_name segment "name_last_or_organization_name" ;;
   assign set_provider_id segment "identification_code" ;;
   modify (fun p => set_transmit_data (_create_request p) p) ;;
   stop <- perf_counter_ms ;;
   let elapsed_time := (stop - start)%float in
   modify (fun p => set_metrics (set_translateTime elapsed_time (metrics p)) p) ;;
   operations_append TRANSLATE)%M.

(** [EdiEligibilityCheckProcessor.translate]. *)
Definition translate : M unit :=
  async_transition t_translate
    (start <- perf_counter_ms ;;
     p <- self ;;
     models <- lift (x12_models env (input_message p)) ;;
     for_each models (translate_model start))%M.

Local Close Scope string_scope.

(** [a == b] on strings. *)
Fixpoint text_eqb (a b : text) : bool :=
  match a, b with
  | [], [] => true
  | x :: a', y :: b' => Ascii.eqb x y && text_eqb a' b'
  | _, _ => false
  end.

(** A local variable of a function body: assigned or not yet. *)
Inductive Local (A : Type) : Type :=
| Unbound
| Bound (a : A).

Arguments Unbound {A}.

(** The value stored into an element of the template: a string as it is;
    anything else is kept as [None], which [join] refuses later. *)
Definition as_element (v : PyVal) : option text :=
  match v with
  | PStr s => Some (str s)
  | _ => None
  end.

(** [elements[i]]. *)
Definition element_get (els : list (option text)) (i : nat) : Res (option text) :=
  match nth_error els i with
  | Some e => inr e
  | None => inl (IndexError "list index out of range")
  end.

(** [elements[i] = v]. *)
Fixpoint element_set (els : list (option text)) (i : nat) (v : option text)
  : Res (list (option text)) :=
  match els, i with
  | [], _ => inl (IndexError "list assignment index out of range")
  | _ :: els', O => inr (v :: els')
  | e :: els', S i' => (r <- element_set els' i' v ;; inr (e :: r))%res
  end.

(** [delimiter.join(elements)]: every item must be a string. *)
Fixpoint all_strings (els : list (option text)) : Res (list text) :=
  match els with
  | [] => inr []
  | Some e :: els' => (r <- all_strings els' ;; inr (e :: r))%res
  | None :: _ => inl (TypeError "sequence item: expected str instance")
  end.

(** [segment[0:3] == "NM1" and elements[1] == qualifier]: the element is read
    only when the segment is an NM1. *)
Definition nm1_with (qualifier : string) (segment : text)
    (els : list (option text)) : Res bool :=
  if text_eqb (slice 0 3 segment) (str "NM1") then
    (e <- element_get els 1 ;;
     inr (match e with
          | Some x => text_eqb x (str qualifier)
          | None => false
          end))%res
  else inr false.

(** One round of [for segment in r.segments():] in the callback, on the
    locals [output_message] and [element_delimiter]. *)
Definition rewrite_segment (p : Processor) (eligibility : Z)
    (locals : text * Local (option ascii)) (segment : text)
  : Res (text * Local (option ascii)) :=
  let '(output_message, element_delimiter) := locals in
  let '(output_message, element_delimiter) :=
    if text_eqb (slice 0 3 segment) (str "ISA")
    then (output_message, Bound (nth_error segment 3))
    else (output_message ++ str "~", element_delimiter) in
  match element_delimiter with
  | Unbound => inl (UnboundLocalError "element_delimiter")
  | Bound d =>
      (els <- elements segment d ;;
       let els := map Some els in
       is_il <- nm1_with "IL" segment els ;;
       els <-
         (if is_il then
            e <- element_set els 3 (as_element (subscriber_last p)) ;;
            e <- element_set e 4 (as_element (subscriber_first p)) ;;
            element_set e 9 (as_element (subscriber_id p))
          else
            is_pr <- nm1_with "PR" segment els ;;
            if is_pr then
              e <- element_set els 3 (as_element (insurer_name p)) ;;
              element_set e 9 (as_element (insurer_id p))
            else
              is_1p <- nm1_with "1P" segment els ;;
              if is_1p then
                e <- element_set els 3 (as_element (provider_name p)) ;;
                element_set e 9 (as_element (provider_id p))
              else if text_eqb (slice 0 3 segment) (str "TRN") then
                element_set els 2 (as_element (transaction_id p))
              else if text_eqb (slice 0 2 segment) (str "EB") then
                element_set els 1
                  (Some (str (NilZero.string_of_int (Z.to_int eligibility))))
              else inr els) ;;
       strs <- all_strings els ;;
       match d with
       | Some c =>
           inr (output_message ++ rstrip c (join [c] strs), element_delimiter)
       | None => inl (ValueError "empty separator")
       end)%res
  end.

(** The whole [for] loop over the segments of the template. *)
Fixpoint rewrite_segments (p : Processor) (eligibility : Z)
    (locals : text * Local (option ascii)) (segs : list text)
  : Res (text * Local (option ascii)) :=
  match segs with
  | [] => inr locals
  | segment :: segs' =>
      (locals' <- rewrite_segment p eligibility locals segment ;;
       rewrite_segments p eligibility locals' segs')%res
  end.

(** [print(f"271 result: {output_message}")]. *)
Definition print_271 (output_message : text) : M unit :=
  fun m => (Returned tt,
            {| proc := proc m; ticks := ticks m; turns := turns m;
               printed := printed m ++ [output_message] |}).

(** [nats_coverage_response_callback]. *)
Definition nats_coverage_response_callback (msg : Msg) : M unit :=
  (message <- lift (decode_payload env (data msg)) ;;
   id <- lift (getpath [Key "identifier"; Idx 0; Key "value"] message) ;;
   p <- self ;;
   if negb (py_eqb id (transaction_id p)) then ret tt
   else
     inforce <- lift (getpath [Key "insurance"; Idx 0; Key "inforce"] message) ;;
     let eligibility := (if truthy inforce then 1 else 6)%Z in
     content <- lift (open_file (fs env) (str "./samples/271.x12")) ;;
     let template := join (str ",") (readlines content) in
     r <- lift (__enter__ (fs env) (expand env) (cfg env) template) ;;
     out <- lift (rewrite_segments p eligibility ([], Unbound) (segments r)) ;;
     print_271 (fst out) ;;
     modify (set_message_received true))%M.

(** [start_nats_coverage_eligibility_subscriber]. *)
Definition start_nats_coverage_eligibility_subscriber : M unit :=
  (lift (tls_setup env) ;;
   modify (set_nats_client
             (Some {| is_connected := false; subscriptions := [] |})) ;;
   lift (nats_connect env) ;;
   modify (set_nats_client
             (Some {| is_connected := true;
                      subscriptions := ["eligibility.EVENTS"%string] |})))%M.

(** [stop_nats_coverage_eligibility_subscriber]: closing the client drops its
    subscriptions and the connection. *)
Definition stop_nats_coverage_eligibility_subscriber : M unit :=
  (p <- self ;;
   match nats_client p with
   | None => raise (AttributeError "'NoneType' object has no attribute 'close'")
   | Some _ =>
       modify (set_nats_client
                 (Some {| is_connected := false; subscriptions := [] |}))
   end)%M.


(** An exception the callback raises stays inside the NATS client, which
    reports it to its error callback. *)
Definition swallow (c : M unit) : M unit :=
  fun m =>
    match c m with
    | (Raised _, m') => (Returned tt, m')
    | other => other
    end.

(** One turn of the event loop while the processing flow is suspended: the
    messages the broker pushed are handed to the callback, in order, when the
    client is connected and subscribed. *)
Definition event_loop_turn : M unit :=
  fun m =>
    let msgs := inbox env (turns m) in
    let m1 := {| proc := proc m; ticks := ticks m; turns := S (turns m);
                 printed := printed m |} in
    match nats_client (proc m1) with
    | Some c =>
        if is_connected c
           && existsb (String.eqb "eligibility.EVENTS") (subscriptions c)
        then for_each msgs (fun msg => swallow (nats_coverage_response_callback msg)) m1
        else (Returned tt, m1)
    | None => (Returned tt, m1)
    end.

(** [EdiProcessor.transmit].  The flow is suspended once, in the POST. *)
Definition transmit : M unit :=
  async_transition t_transmit
    (start <- perf_counter_ms ;;
     p <- self ;;
     let resource := transmit_data p in
     event_loop_turn ;;
     result <- lift (http_post env resource) ;;
     modify (set_transmit_result (Some (fst result))) ;;
     modify (set_transmit_status_code (Some (snd result))) ;;
     stop <- perf_counter_ms ;;
     let elapsed_time := (stop - start)%float in
     modify (fun p => set_metrics (set_transmitTime elapsed_time (metrics p)) p) ;;
     operations_append TRANSMIT)%M.

(** [while not message_received: await asyncio.sleep(2)], observed for at
    most [fuel] sleeps. *)
Fixpoint wait_for_message (fuel : nat) : M unit :=
  fun m =>
    if message_received (proc m) then (Returned tt, m)
    else match fuel with
         | O => (Pending, m)
         | S fuel' => (event_loop_turn ;; wait_for_message fuel')%M m
         end.

(** [if flag: step]. *)
Definition when (flag : bool) (step : M unit) : M unit :=
  if flag then step else ret tt.

(** [try: body / except Exception as ex: handler(ex)]: what is not derived
    from [Exception] passes through. *)
Definition try_except {A} (body : M A) (handler : PyError -> M A) : M A :=
  fun m =>
    match body m with
    | (Raised ex, m') =>
        if is_exception ex then handler ex m' else (Raised ex, m')
    | other => other
    end.

(** [EdiProcessor.run], on the eligibility processor. *)
Definition run (do_enrich do_validate do_translate do_transmit : bool)
    (fuel : nat) : M EdiResult :=
  try_except
    (analyze ;;
     when do_enrich enrich ;;
     when do_validate validate ;;
     when do_translate translate ;;
     when do_transmit transmit ;;
     wait_for_message fuel ;;
     complete)%M
    (fun ex => fail "An error occurred executing the EdiProcessor workflow" (Some ex)).

(* --------------------------------------------------------------------- *)
(** *** [edi/cli.py] *)
(* --------------------------------------------------------------------- *)

(** The truth values of the keyword arguments [process_edi] reads. *)
Record Kwargs : Type := {
  kw_enrich : bool;
  kw_validate : bool;
  kw_translate : bool;
  kw_transmit : bool
}.

(** [processor = EdiEligibilityCheckProcessor(input_message)]: from here on
    the machine holds the new processor. *)
Definition new_processor (message : text) : M unit :=
  modify (fun _ => EdiEligibilityCheckProcessor_init message).

(** [process_edi]. *)
Definition process_edi (edi : text) (kwargs : Kwargs) (fuel : nat) : M EdiResult :=
  (content <- lift (open_file (fs env) edi) ;;
   let message := join (str ",") (readlines content) in
   new_processor message ;;
   start_nats_coverage_eligibility_subscriber ;;
   analyze ;;
   when (kw_enrich kwargs) enrich ;;
   when (kw_validate kwargs) validate ;;
   when (kw_translate kwargs) translate ;;
   when (kw_transmit kwargs) transmit ;;
   wait_for_message fuel ;;
   stop_nats_coverage_eligibility_subscriber ;;
   complete)%M.

(** Invoking a transition by name, as the workflow engine is driven: the
    result, if the method returns one. *)
Definition invoke (t : Transition) (reason : string) (exception : option PyError)
  : M (option EdiResult) :=
  match t with
  | t_analyze => (analyze ;; ret None)%M
  | t_enrich => (enrich ;; ret None)%M
  | t_validate => (validate ;; ret None)%M
  | t_translate => (translate ;; ret None)%M
  | t_transmit => (transmit ;; ret None)%M
  | t_complete => (r <- complete ;; ret (Some r))%M
  | t_cancel => (r <- cancel ;; ret (Some r))%M
  | t_fail => (r <- fail reason exception ;; ret (Some r))%M
  end.

End Workflow.

(* ===================================================================== *)
(** * Properties *)
(* ===================================================================== *)

Unset Implicit Arguments.

(* ===================================================================== *)
(** ** The segment reader *)
(* ===================================================================== *)

(** The segments of a text as the design document words them: the text split
    on the terminator, the trailing empty artifact produced by a final
    terminator discarded. *)
Definition terminated_segments (term : ascii) (s : text) : list text :=
  let parts := split term s in
  match last parts [] with
  | [] => removelast parts
  | _ :: _ => parts
  end.

(** Encoding a list of segments: the header, then every segment's elements
    joined with the element separator and closed by the terminator. *)
Definition encode (header : text) (sep term : ascii) (segs : list (list text))
  : text :=
  header ++ List.concat (map (fun els => join [sep] els ++ [term]) segs).

(** A 106-character ISA header that carries the element separator at offset
    3 and the terminator at offset 105, and nowhere before. *)
Definition valid_header (header : text) (sep term : ascii) : Prop :=
  List.length header = 106
  /\ startswith (str "ISA") header = true
  /\ nth_error header 3 = Some sep
  /\ nth_error header 105 = Some term
  /\ Forall (fun c => c <> term) (firstn 105 header).

(** The default configuration with another read buffer size. *)
Definition config_with_buffer (bs : Z) : X12Config :=
  {| isa_element_separator := isa_element_separator default_config;
     isa_repetition_separator := isa_repetition_separator default_config;
     isa_segment_length := isa_segment_length default_config;
     isa_segment_terminator := isa_segment_terminator default_config;
     x12_reader_buffer_size := bs |}.




(** *** Splitting and stripping *)

Lemma ascii_eqb_refl (c : ascii) : Ascii.eqb c c = true.
Proof. apply Ascii.eqb_refl. Qed.

Lemma split_not_nil (t : ascii) (s : text) : split t s <> [].
Proof.
  destruct s as [|c r]; simpl; [discriminate|].
  destruct (Ascii.eqb c t); [discriminate|].
  destruct (split t r); discriminate.
Qed.

Lemma split_app_sep (t : ascii) (a b : text) :
  split t (a ++ t :: b) = split t a ++ split t b.
Proof.
  induction a as [|c a IH]; simpl.
  - now rewrite ascii_eqb_refl.
  - destruct (Ascii.eqb c t).
    + now rewrite IH.
    + rewrite IH. destruct (split t a) eqn:E; [exfalso; eapply split_not_nil; eauto|].
      reflexivity.
Qed.

Lemma split_free (t : ascii) (s : text) :
  Forall (fun c => c <> t) s -> split t s = [s].
Proof.
  induction 1 as [|c s Hc _ IH]; simpl; [reflexivity|].
  destruct (Ascii.eqb_spec c t) as [E|_]; [contradiction|].
  now rewrite IH.
Qed.

Lemma split_snoc_other (t c : ascii) (a : text) :
  c <> t ->
  split t (a ++ [c]) = removelast (split t a) ++ [last (split t a) [] ++ [c]].
Proof.
  intros Hc. induction a as [|x a IH].
  - simpl. destruct (Ascii.eqb_spec c t) as [E|_]; [contradiction|reflexivity].
  - change ((x :: a) ++ [c]) with (x :: (a ++ [c])). simpl split.
    rewrite IH. pose proof (split_not_nil t a) as Hn.
    destruct (Ascii.eqb x t).
    + destruct (split t a) as [|h l] eqn:E; [contradiction|]. reflexivity.
    + destruct (split t a) as [|h l] eqn:E; [contradiction|].
      destruct l as [|h' l']; reflexivity.
Qed.

Lemma last_char_snoc (a : text) (c : ascii) : last_char (a ++ [c]) = Some c.
Proof. unfold last_char. now rewrite rev_unit. Qed.

Lemma ends_on_inv (t : ascii) (b : text) :
  ends_on t b = true -> exists a, b = a ++ [t].
Proof.
  unfold ends_on. destruct b as [|x b'] using rev_ind; [discriminate|].
  rewrite last_char_snoc. intros H. apply Ascii.eqb_eq in H. subst. eauto.
Qed.

Lemma ends_on_snoc (t c : ascii) (a : text) :
  ends_on t (a ++ [c]) = Ascii.eqb c t.
Proof. unfold ends_on. now rewrite last_char_snoc. Qed.

Lemma rstrip_snoc_sep (t : ascii) (a : text) : rstrip t (a ++ [t]) = rstrip t a.
Proof.
  induction a as [|c a IH]; simpl.
  - now rewrite ascii_eqb_refl.
  - now rewrite IH.
Qed.

Lemma rstrip_snoc_other (t c : ascii) (a : text) :
  c <> t -> rstrip t (a ++ [c]) = a ++ [c].
Proof.
  intros Hc. induction a as [|x a IH]; simpl.
  - destruct (Ascii.eqb_spec c t); [contradiction|reflexivity].
  - rewrite IH. destruct (a ++ [c]) eqn:E; [|reflexivity].
    destruct a; discriminate.
Qed.

Lemma rstrip_not_ending (t : ascii) (a : text) :
  ends_on t a = false -> rstrip t a = a.
Proof.
  destruct a as [|c a _] using rev_ind; [reflexivity|].
  rewrite ends_on_snoc. intros H. apply rstrip_snoc_other.
  intros ->. now rewrite ascii_eqb_refl in H.
Qed.

Lemma last_split_nil (t : ascii) (s : text) :
  last (split t s) [] = [] -> s = [] \/ ends_on t s = true.
Proof.
  destruct s as [|c a _] using rev_ind; [now left|].
  intros H. right. rewrite ends_on_snoc.
  destruct (Ascii.eqb_spec c t) as [E|N]; [reflexivity|].
  rewrite (split_snoc_other t c a N) in H. rewrite last_last in H.
  destruct (last (split t a) []); discriminate.
Qed.

(** *** The document's segments *)

Lemma last_app_r {A} (l l' : list A) (d : A) :
  l' <> [] -> last (l ++ l') d = last l' d.
Proof.
  intros Hl. induction l as [|x l IH]; [reflexivity|].
  simpl. rewrite IH. destruct (l ++ l') eqn:E; [|reflexivity].
  apply app_eq_nil in E. destruct E; contradiction.
Qed.

Lemma terminated_nil (t : ascii) : terminated_segments t [] = [].
Proof. reflexivity. Qed.

Lemma terminated_app (t : ascii) (a b : text) :
  terminated_segments t (a ++ t :: b) = split t a ++ terminated_segments t b.
Proof.
  unfold terminated_segments. rewrite split_app_sep.
  pose proof (split_not_nil t b) as Hb.
  rewrite last_app_r by exact Hb.
  destruct (last (split t b) []); [|reflexivity].
  now rewrite removelast_app.
Qed.

Lemma terminated_open (t : ascii) (s : text) :
  s <> [] -> ends_on t s = false -> terminated_segments t s = split t s.
Proof.
  intros Hs He. unfold terminated_segments.
  destruct (last (split t s) []) eqn:E; [|reflexivity].
  apply last_split_nil in E. destruct E as [E|E]; congruence.
Qed.

(** *** Reading in chunks *)

Lemma read_nonempty (n : Z) (s : text) :
  n <> 0%Z -> s <> [] -> fst (read n s) <> [].
Proof.
  intros Hn Hs. unfold read. destruct (n <? 0)%Z eqn:E; simpl; [exact Hs|].
  apply Z.ltb_ge in E. destruct (Z.to_nat n) eqn:En; [lia|].
  destruct s; [contradiction|discriminate].
Qed.

Lemma extend_stops (term : ascii) (rest buffer b r : text) :
  extend term buffer rest = (b, r) -> ends_on term b = true \/ r = [].
Proof.
  revert buffer. induction rest as [|c rest IH]; intros buffer; simpl.
  - destruct (ends_on term buffer) eqn:E; intros H; inversion H; subst; auto.
  - destruct (ends_on term buffer) eqn:E.
    + intros H; inversion H; subst; auto.
    + apply IH.
Qed.

Lemma split_ends_nil (t : ascii) (a : text) :
  In [] (split t (a ++ [t])).
Proof.
  change (a ++ [t]) with (a ++ t :: []). rewrite split_app_sep.
  apply in_or_app. right. simpl. now left.
Qed.

(** Whatever the chunk size, the loop yields the document's segments of a
    text none of whose segments is empty. *)
Lemma segments_loop_terminated (bs : Z) (term : ascii) (s : text) :
  bs <> 0%Z ->
  Forall (fun seg => seg <> []) (terminated_segments term s) ->
  segments_loop bs term s = terminated_segments term s.
Proof.
  funelim (segments_loop bs term s); intros Hbs Hne.
  - destruct rest as [|x rest]; [reflexivity|].
    exfalso. apply (read_nonempty bs (x :: rest) Hbs); [discriminate|].
    now rewrite e.
  - clear H0 H1 Heqcall.
    pose proof (read_app e1) as Hr.
    pose proof (extend_app e2) as [Happ Hlen].
    pose proof (extend_stops _ _ _ _ _ e2) as Hstop.
    assert (Hrest : rest = buffer ++ rest2) by congruence.
    clear e1 Hr Happ.
    destruct (ends_on term buffer) eqn:Hend.
    + apply ends_on_inv in Hend. destruct Hend as [a ->].
      rewrite <- app_assoc in Hrest. simpl in Hrest. subst rest.
      rewrite terminated_app in Hne |- *.
      apply Forall_app in Hne. destruct Hne as [Ha Hrest2].
      rewrite rstrip_snoc_sep.
      assert (Hna : ends_on term a = false).
      { destruct (ends_on term a) eqn:E; [|reflexivity].
        apply ends_on_inv in E. destruct E as [a' ->].
        rewrite Forall_forall in Ha.
        exfalso. apply (Ha [] (split_ends_nil term a')). reflexivity. }
      rewrite (rstrip_not_ending _ _ Hna).
      f_equal. apply H; assumption.
    + destruct Hstop as [Hstop|Hstop]; [congruence|]. subst rest2.
      rewrite app_nil_r in Hrest. subst rest.
      rewrite (rstrip_not_ending _ _ Hend).
      assert (Hb : buffer <> []) by (destruct buffer; [simpl in Hlen; lia|discriminate]).
      rewrite (terminated_open _ _ Hb Hend).
      rewrite H; [rewrite terminated_nil; apply app_nil_r|assumption|].
      rewrite terminated_nil. constructor.
Qed.

(** *** Opening the reader *)

Lemma str_index_error (s : text) (i : Z) (e : PyError) :
  str_index s i = inl e -> e = IndexError "string index out of range".
Proof.
  unfold str_index.
  destruct (_ || _)%bool; [intros H; now inversion H|].
  destruct (nth_error _ _); [discriminate|intros H; now inversion H].
Qed.

Lemma str_index_nth (s : text) (i : Z) (c : ascii) :
  (0 <= i)%Z -> nth_error s (Z.to_nat i) = Some c -> str_index s i = inr c.
Proof.
  intros Hi Hn. unfold str_index.
  assert (Hlt : Z.to_nat i < List.length s).
  { apply nth_error_Some. congruence. }
  destruct (i <? 0)%Z eqn:E1; [apply Z.ltb_lt in E1; lia|].
  rewrite E1.
  destruct (Z.of_nat (List.length s) <=? i)%Z eqn:E2;
    [apply Z.leb_le in E2; lia|].
  simpl. now rewrite Hn.
Qed.

Lemma str_index_short (s : text) (i : Z) :
  (Z.of_nat (List.length s) <= i)%Z ->
  str_index s i = inl (IndexError "string index out of range").
Proof.
  intros H. unfold str_index.
  destruct (i <? 0)%Z eqn:E1; [apply Z.ltb_lt in E1; lia|].
  destruct (Z.of_nat (List.length s) <=? i)%Z eqn:E2;
    [|apply Z.leb_gt in E2; lia].
  now rewrite orb_true_r.
Qed.

Lemma enter_inv fs expand cfg x12_input r :
  __enter__ fs expand cfg x12_input = inr r ->
  open_stream fs expand cfg x12_input = inr (x12_stream r)
  /\ buffer_size r = x12_reader_buffer_size cfg
  /\ _set_delimiters cfg (x12_stream r)
     = inr (element_separator r, repetition_separator r, segment_terminator r).
Proof.
  unfold __enter__, rbind.
  destruct (open_stream fs expand cfg x12_input) as [e|stream]; [discriminate|].
  destruct (fst (read (isa_segment_length cfg) stream)); [discriminate|].
  destruct (_set_delimiters cfg stream) as [e|[[es rs] st]] eqn:E; [discriminate|].
  intros H. inversion H; subst. simpl. auto.
Qed.

Lemma startswith_app (p s x : text) :
  startswith p s = true -> startswith p (s ++ x) = true.
Proof.
  revert s. induction p as [|a p IH]; intros [|b s]; simpl; try easy.
  intros H. apply andb_true_iff in H. destruct H as [H1 H2].
  now rewrite H1, IH.
Qed.

Lemma read_short (n : Z) (s : text) :
  (Z.of_nat (List.length s) <= n)%Z -> read n s = (s, []).
Proof.
  intros H. unfold read.
  destruct (n <? 0)%Z eqn:E; [reflexivity|].
  rewrite firstn_all2, skipn_all2 by lia. reflexivity.
Qed.

Lemma read_prefix (n : Z) (a b : text) :
  Z.of_nat (List.length a) = n -> read n (a ++ b) = (a, b).
Proof.
  intros H. unfold read.
  destruct (n <? 0)%Z eqn:E; [apply Z.ltb_lt in E; lia|].
  assert (Hn : Z.to_nat n = List.length a) by lia. rewrite Hn.
  rewrite firstn_app, skipn_app, Nat.sub_diag, firstn_all, skipn_all.
  simpl. now rewrite app_nil_r.
Qed.

Lemma set_delimiters_short (stream : text) :
  List.length stream < 106 ->
  _set_delimiters default_config stream
  = inl (IndexError "string index out of range").
Proof.
  intros Hlen. unfold _set_delimiters.
  change (isa_segment_length default_config) with 106%Z.
  rewrite (read_short 106 stream) by lia. cbn [fst].
  assert (H3 : str_index stream (isa_segment_terminator default_config)
               = inl (IndexError "string index out of range")).
  { apply str_index_short. change (isa_segment_terminator default_config) with 105%Z. lia. }
  rewrite H3.
  destruct (str_index stream (isa_element_separator default_config))
    as [e1|es] eqn:E1.
  { apply str_index_error in E1. now subst e1. }
  destruct (str_index stream (isa_repetition_separator default_config))
    as [e2|rs] eqn:E2.
  { apply str_index_error in E2. now subst e2. }
  reflexivity.
Qed.


(** A file system with no file, and no expansion of paths. *)
Definition no_files : text -> option text := fun _ => None.

Definition no_expand : text -> text := fun path => path.


(** *** The segments the reader yields *)

(** A well-formed ISA header: the fixture the examples below share. *)
Definition sample_header : text :=
  str "ISA*00*          *00*          *ZZ*890069730      *ZZ*154663145      *200929*1705*|*00501*000000001*0*T*:~".

(** The header without its terminator: the first segment. *)
Definition sample_isa : text := firstn 105 sample_header.

Example sample_header_valid : valid_header sample_header "*" "~".
Proof.
  repeat split; try reflexivity.
  vm_compute. repeat constructor; discriminate.
Qed.

(** A reader over [header + "ST*270*0001~SE*2*0001"]: the last segment has no
    terminator. *)
Definition sample_text : text := sample_header ++ str "ST*270*0001~SE*2*0001".

Definition sample_reader : X12SegmentReader :=
  {| x12_input := sample_text;
     buffer_size := 1024000;
     x12_stream := sample_text;
     element_separator := "*";
     repetition_separator := "|";
     segment_terminator := "~" |}.

Example sample_reader_segments :
  segments sample_reader = [sample_isa; str "ST*270*0001"; str "SE*2*0001"].
Proof. reflexivity. Qed.





(** C7 (amended). For every input whose header is valid, read with a non-zero
    buffer size, and none of whose terminator-delimited segments is empty,
    [segments] yields exactly the terminator-delimited segments, once each and
    in order, whatever the buffer size (no segment is split at a chunk
    boundary); the empty artifact after a final terminator is discarded; and
    content left after the last terminator is yielded as the final segment. *)
Theorem segments_yields_terminated_segments :
  forall (fs : text -> option text) (expand : text -> text) (cfg : X12Config)
         (x12_input : text) (r : X12SegmentReader),
    __enter__ fs expand cfg x12_input = inr r ->
    x12_reader_buffer_size cfg <> 0%Z ->
    Forall (fun seg => seg <> [])
           (terminated_segments (segment_terminator r) (x12_stream r)) ->
    segments r = terminated_segments (segment_terminator r) (x12_stream r)
    /\ (forall bs, bs <> 0%Z ->
          segments_loop bs (segment_terminator r) (x12_stream r) = segments r)
    /\ (forall body,
          x12_stream r = body ++ [segment_terminator r] ->
          segments r = split (segment_terminator r) body)
    /\ (forall head partial,
          x12_stream r = head ++ segment_terminator r :: partial ->
          partial <> [] ->
          Forall (fun c => c <> segment_terminator r) partial ->
          segments r = split (segment_terminator r) head ++ [partial]).
Proof.
  intros fs expand cfg x12_input r Henter Hbs Hne.
  destruct (enter_inv fs expand cfg x12_input r Henter) as [_ [Hsize _]].
  assert (Hseg : segments r
                 = terminated_segments (segment_terminator r) (x12_stream r)).
  { unfold segments. rewrite Hsize. now apply segments_loop_terminated. }
  split; [exact Hseg|]. split; [|split].
  - intros bs Hbs'. rewrite Hseg. now apply segments_loop_terminated.
  - intros body Hbody. rewrite Hseg, Hbody.
    change (body ++ [segment_terminator r])
      with (body ++ segment_terminator r :: []).
    rewrite terminated_app, terminated_nil. apply app_nil_r.
  - intros head partial Hs Hp Hfree. rewrite Hseg, Hs, terminated_app.
    f_equal. unfold terminated_segments. rewrite (split_free _ _ Hfree).
    simpl. destruct partial; [contradiction|reflexivity].
Qed.

(** C7 (amended), at [sample_reader]. *)
Lemma segments_yields_terminated_segments_witness :
  segments sample_reader = terminated_segments "~" sample_text
  /\ (forall bs, bs <> 0%Z -> segments_loop bs "~" sample_text = segments sample_reader)
  /\ (forall body, sample_text = body ++ ["~"%char] ->
        segments sample_reader = split "~" body)
  /\ (forall head partial,
        sample_text = head ++ "~"%char :: partial ->
        partial <> [] ->
        Forall (fun c => c <> "~"%char) partial ->
        segments sample_reader = split "~" head ++ [partial]).
Proof.
  apply (segments_yields_terminated_segments no_files no_expand default_config
           sample_text sample_reader).
  - reflexivity.
  - discriminate.
  - vm_compute. repeat constructor; discriminate.
Defined.

(** C7 as stated fails on empty segments.  With the default buffer, the
    empty segment between the two terminators that end [header + "~"] is not
    yielded.  With a buffer of 109 characters, the empty segment of
    [header + "A~~B~"] falls at the end of the first chunk and is lost, while
    a buffer that holds the whole text yields it.  With a buffer size of 0 the
    first read is empty and nothing is yielded. *)
Lemma segments_drops_empty_segments :
  (exists r,
     __enter__ no_files no_expand default_config (sample_header ++ str "~") = inr r
     /\ segments r = [sample_isa]
     /\ terminated_segments "~" (x12_stream r) = [sample_isa; []])
  /\
  (exists r r',
     __enter__ no_files no_expand (config_with_buffer 109)
               (sample_header ++ str "A~~B~") = inr r
     /\ __enter__ no_files no_expand default_config
                  (sample_header ++ str "A~~B~") = inr r'
     /\ segments r = [sample_isa; str "A"; str "B"]
     /\ segments r' = [sample_isa; str "A"; []; str "B"]
     /\ terminated_segments "~" (x12_stream r)
        = [sample_isa; str "A"; []; str "B"])
  /\
  (exists r,
     __enter__ no_files no_expand (config_with_buffer 0) sample_text = inr r
     /\ segments r = []).
Proof.
  split; [|split].
  - eexists. split; [reflexivity|]. split; reflexivity.
  - eexists. eexists. split; [reflexivity|]. split; [reflexivity|].
    repeat split; reflexivity.
  - eexists. split; reflexivity.
Qed.

(** *** Round trip *)

Lemma join_free (sep t : ascii) (els : list text) :
  sep <> t ->
  Forall (fun e => Forall (fun c => c <> t) e) els ->
  Forall (fun c => c <> t) (join [sep] els).
Proof.
  intros Hsep. induction 1 as [|e els He _ IH]; simpl; [constructor|].
  destruct els as [|e' els']; [exact He|].
  apply Forall_app. split; [exact He|].
  constructor; [exact Hsep|exact IH].
Qed.

Lemma split_join (sep : ascii) (els : list text) :
  els <> [] ->
  Forall (fun e => Forall (fun c => c <> sep) e) els ->
  split sep (join [sep] els) = els.
Proof.
  intros Hne H. induction H as [|e els He Hels IH]; [contradiction|].
  destruct els as [|e' els'].
  - simpl. now apply split_free.
  - change (join [sep] (e :: e' :: els'))
      with (e ++ sep :: join [sep] (e' :: els')).
    rewrite split_app_sep, (split_free _ _ He), IH by discriminate.
    reflexivity.
Qed.

Lemma join_not_nil (sep : ascii) (els : list text) :
  els <> [] -> els <> [[]] -> join [sep] els <> [].
Proof.
  intros H1 H2. destruct els as [|e [|e' els']]; [contradiction| |].
  - simpl. intros ->. contradiction.
  - simpl. intros H. apply app_eq_nil in H. destruct H as [_ H]. discriminate.
Qed.

Lemma terminated_concat (t : ascii) (xs : list text) :
  Forall (fun x => Forall (fun c => c <> t) x) xs ->
  terminated_segments t (List.concat (map (fun x => x ++ [t]) xs)) = xs.
Proof.
  induction 1 as [|x xs Hx _ IH]; [reflexivity|].
  simpl. rewrite <- app_assoc. simpl.
  rewrite terminated_app, (split_free _ _ Hx), IH. reflexivity.
Qed.

Lemma map_res_elements (d : ascii) (l : list text) :
  map_res (fun segment => elements segment (Some d)) l = inr (map (split d) l).
Proof.
  induction l as [|s l IH]; [reflexivity|].
  cbn [map_res]. rewrite IH. reflexivity.
Qed.

Lemma header_split (header : text) (sep term : ascii) :
  valid_header header sep term ->
  header = firstn 105 header ++ [term]
  /\ List.length (firstn 105 header) = 105
  /\ sep <> term.
Proof.
  intros (Hlen & _ & Hsep & Hterm & Hfree).
  assert (H105 : List.length (firstn 105 header) = 105)
    by (rewrite length_firstn; lia).
  split; [|split; [exact H105|]].
  - rewrite <- (firstn_skipn 105 header) at 1. f_equal.
    assert (Hs : List.length (skipn 105 header) = 1)
      by (rewrite length_skipn; lia).
    rewrite <- (firstn_skipn 105 header) in Hterm.
    rewrite nth_error_app2 in Hterm by lia.
    rewrite H105, Nat.sub_diag in Hterm.
    destruct (skipn 105 header) as [|c [|c' l]]; try discriminate.
    simpl in Hterm. congruence.
  - intros ->. rewrite Forall_forall in Hfree. apply (Hfree term); [|reflexivity].
    apply nth_error_In with (n := 3).
    rewrite nth_error_firstn. exact Hsep.
Qed.

(** The segments a round trip can carry: at least one element, not the lone
    empty element, and no delimiter inside an element. *)
Definition plain_segment (sep term : ascii) (els : list text) : Prop :=
  els <> [] /\ els <> [[]]
  /\ Forall (fun e => Forall (fun c => c <> sep /\ c <> term) e) els.

Lemma plain_segment_free (sep term : ascii) (els : list text) :
  plain_segment sep term els ->
  Forall (fun e => Forall (fun c => c <> sep) e) els
  /\ Forall (fun e => Forall (fun c => c <> term) e) els.
Proof.
  intros (_ & _ & H). split.
  - eapply Forall_impl; [|exact H]. intros e He.
    eapply Forall_impl; [|exact He]. now intros c [? ?].
  - eapply Forall_impl; [|exact H]. intros e He.
    eapply Forall_impl; [|exact He]. now intros c [? ?].
Qed.

Lemma terminated_encode (header : text) (sep term : ascii) (segs : list (list text)) :
  valid_header header sep term ->
  Forall (plain_segment sep term) segs ->
  terminated_segments term (encode header sep term segs)
  = firstn 105 header :: map (join [sep]) segs.
Proof.
  intros Hv Hsegs. destruct (header_split _ _ _ Hv) as (Hh & _ & Hsep).
  destruct Hv as (_ & _ & _ & _ & Hfree).
  unfold encode. remember (firstn 105 header) as h eqn:Eh. rewrite Hh.
  rewrite <- app_assoc. cbn [app].
  rewrite terminated_app, (split_free _ _ Hfree). cbn [app]. f_equal.
  rewrite <- (map_map (join [sep]) (fun x => x ++ [term])).
  apply terminated_concat. apply Forall_map.
  eapply Forall_impl; [|exact Hsegs]. intros els Hels.
  apply join_free; [exact Hsep|]. now apply plain_segment_free in Hels.
Qed.

Lemma enter_encoded fs expand bs (header : text) (sep term : ascii)
    (segs : list (list text)) :
  valid_header header sep term ->
  is_x12_file fs expand (config_with_buffer bs) (encode header sep term segs) = false ->
  exists rs,
    __enter__ fs expand (config_with_buffer bs) (encode header sep term segs)
    = inr {| x12_input := encode header sep term segs;
             buffer_size := bs;
             x12_stream := encode header sep term segs;
             element_separator := sep;
             repetition_separator := rs;
             segment_terminator := term |}.
Proof.
  intros Hv Hfile. pose proof Hv as (Hlen & Hisa & Hsep & Hterm & _).
  assert (Hrs : exists rs, nth_error header 82 = Some rs).
  { destruct (nth_error header 82) eqn:E; [eauto|].
    apply nth_error_None in E. lia. }
  destruct Hrs as [rs Hrs]. exists rs.
  assert (Hdata : is_x12_data (encode header sep term segs) = true).
  { unfold is_x12_data, encode.
    destruct header as [|c header']; [discriminate|].
    simpl app. apply (startswith_app _ (c :: header') _ Hisa). }
  assert (Hread : read 106 (encode header sep term segs)
                  = (header, List.concat (map (fun els => join [sep] els ++ [term]) segs))).
  { apply read_prefix. lia. }
  unfold __enter__, open_stream. rewrite Hfile, Hdata. unfold rbind at 1.
  change (isa_segment_length (config_with_buffer bs)) with 106%Z.
  rewrite Hread. cbn [fst].
  destruct header as [|c header'] eqn:Eh; [discriminate|]. rewrite <- Eh in *.
  unfold _set_delimiters.
  change (isa_segment_length (config_with_buffer bs)) with 106%Z.
  rewrite Hread. cbn [fst].
  change (isa_element_separator (config_with_buffer bs)) with 3%Z.
  change (isa_repetition_separator (config_with_buffer bs)) with 82%Z.
  change (isa_segment_terminator (config_with_buffer bs)) with 105%Z.
  rewrite (str_index_nth header 3 sep), (str_index_nth header 82 rs),
    (str_index_nth header 105 term) by (try lia; assumption).
  reflexivity.
Qed.

(** C8 (amended). For every list of segments that each hold at least one
    element, are not the lone empty element, and whose elements contain
    neither the element separator nor the terminator: encoding it behind a
    valid 106-character header that carries those delimiters, and decoding
    the text with a reader (non-zero buffer size, [segments] then [elements]
    on the reader's element separator) yields the elements of the header
    segment followed by the original segment/element list. *)
Theorem decode_encode_roundtrip :
  forall (fs : text -> option text) (expand : text -> text) (bs : Z)
         (header : text) (sep term : ascii) (segs : list (list text)),
    bs <> 0%Z ->
    valid_header header sep term ->
    is_x12_file fs expand (config_with_buffer bs) (encode header sep term segs) = false ->
    Forall (plain_segment sep term) segs ->
    exists r,
      __enter__ fs expand (config_with_buffer bs) (encode header sep term segs) = inr r
      /\ element_separator r = sep
      /\ segment_terminator r = term
      /\ decode r = inr (split sep (firstn 105 header) :: segs).
Proof.
  intros fs expand bs header sep term segs Hbs Hv Hfile Hsegs.
  destruct (enter_encoded fs expand bs header sep term segs Hv Hfile) as [rs Hr].
  eexists. split; [exact Hr|]. split; [reflexivity|]. split; [reflexivity|].
  unfold decode, segments. cbn [buffer_size segment_terminator x12_stream element_separator].
  pose proof (terminated_encode header sep term segs Hv Hsegs) as Ht.
  rewrite segments_loop_terminated; [rewrite Ht| exact Hbs |rewrite Ht].
  - rewrite map_res_elements. simpl map. f_equal. f_equal.
    rewrite map_map.
    rewrite <- (map_id segs) at 2. apply map_ext_Forall.
    eapply Forall_impl; [|exact Hsegs]. intros els Hels.
    apply split_join; [apply Hels|]. now apply plain_segment_free in Hels.
  - constructor.
    + destruct (header_split _ _ _ Hv) as (_ & H105 & _).
      intros E. rewrite E in H105. discriminate.
    + apply Forall_map. eapply Forall_impl; [|exact Hsegs].
      intros els (H1 & H2 & _). now apply join_not_nil.
Qed.

(** C8 (amended), at two body segments. *)
Lemma decode_encode_roundtrip_witness :
  exists r,
    __enter__ no_files no_expand (config_with_buffer 64)
      (encode sample_header "*" "~"
         [[str "ST"; str "270"; str "0001"]; [str "SE"; []; str "0001"]]) = inr r
    /\ element_separator r = "*"%char
    /\ segment_terminator r = "~"%char
    /\ decode r
       = inr (split "*" (firstn 105 sample_header)
              :: [[str "ST"; str "270"; str "0001"]; [str "SE"; []; str "0001"]]).
Proof.
  apply (decode_encode_roundtrip no_files no_expand 64 sample_header "*" "~").
  - discriminate.
  - exact sample_header_valid.
  - reflexivity.
  - repeat constructor; discriminate.
Defined.

(** The reader [__enter__] returns for the one segment [A*B]. *)
Definition separator_reader : X12SegmentReader :=
  {| x12_input := encode sample_header "*" "~" [[str "A*B"]];
     buffer_size := x12_reader_buffer_size default_config;
     x12_stream := encode sample_header "*" "~" [[str "A*B"]];
     element_separator := "*";
     repetition_separator := "|";
     segment_terminator := "~" |}.

(** C8 as stated fails: an element that contains the element separator comes
    back as two elements, and the decoded list starts with the header
    segment.  A segment without elements does not come back at all. *)
Lemma roundtrip_breaks_on_separator :
  __enter__ no_files no_expand default_config
    (encode sample_header "*" "~" [[str "A*B"]]) = inr separator_reader
  /\ decode separator_reader = inr [split "*" sample_isa; [str "A"; str "B"]]
  /\ decode separator_reader <> inr [[str "A*B"]]
  /\ (forall pre, decode separator_reader <> inr (pre ++ [[str "A*B"]]))
  /\ (exists r0,
        __enter__ no_files no_expand default_config
          (encode sample_header "*" "~" [[]]) = inr r0
        /\ decode r0 = inr [split "*" sample_isa]).
Proof.
  assert (H : decode separator_reader
              = inr [split "*" sample_isa; [str "A"; str "B"]])
    by reflexivity.
  split; [reflexivity|]. split; [exact H|]. split; [|split].
  - rewrite H. discriminate.
  - intros pre. rewrite H. intros E. inversion E as [E'].
    destruct pre as [|p1 [|p2 [|p3 pre]]]; simpl in E'; discriminate.
  - eexists. split; reflexivity.
Qed.

(* ===================================================================== *)
(** ** The workflow engine *)
(* ===================================================================== *)

Lemma bind_returned {A B} (c : M A) (k : A -> M B) (m m' : Machine) (b : B) :
  bind c k m = (Returned b, m') ->
  exists a m1, c m = (Returned a, m1) /\ k a m1 = (Returned b, m').
Proof.
  unfold bind. destruct (c m) as [[a| |] m1]; try discriminate. eauto.
Qed.

Lemma transition_illegal {A} (t : Transition) (impl : M A) (m : Machine) :
  is_available t (state (proc m)) = false ->
  transition t impl m = (Raised (InvalidTransitionError t (state (proc m))), m).
Proof. intros H. unfold transition. now rewrite H. Qed.

Lemma async_transition_illegal {A} (t : Transition) (impl : M A) (m : Machine) :
  is_available t (state (proc m)) = false ->
  async_transition t impl m
  = (Raised (InvalidTransitionError t (state (proc m))), m).
Proof. intros H. unfold async_transition. now rewrite H. Qed.

Lemma terminal_not_available (t : Transition) (s : State) :
  is_terminal s = true -> is_available t s = false.
Proof. destruct s, t; simpl; intros H; try discriminate; reflexivity. Qed.

Lemma non_terminal_can_fail (s : State) :
  is_terminal s = false -> is_available t_fail s = true.
Proof. destruct s; simpl; intros H; try discriminate; reflexivity. Qed.

(** A machine holding a freshly constructed processor. *)
Definition fresh_machine (message : text) : Machine :=
  {| proc := EdiEligibilityCheckProcessor_init message;
     ticks := 0; turns := 0; printed := [] |}.

(** C6. Invoking a transition from a state that is not one of its sources
    raises [InvalidTransitionError] for that transition and that state, whose
    text names both, and leaves the machine (the state and the operation log
    with it) as it was.  No transition is available from a terminal state. *)
Theorem illegal_transition_rejected :
  forall (env : Env) (t : Transition) (reason : string)
         (exception : option PyError) (m : Machine),
    is_available t (state (proc m)) = false ->
    invoke env t reason exception m
    = (Raised (InvalidTransitionError t (state (proc m))), m)
    /\ exc_str (InvalidTransitionError t (state (proc m)))
       = ("Transition '" ++ transition_name t
          ++ "' isn't available from state '"
          ++ state_name (state (proc m)) ++ "'.")%string
    /\ (forall t', is_terminal (state (proc m)) = true ->
                   is_available t' (state (proc m)) = false).
Proof.
  intros env t reason exception m H. split; [|split].
  - destruct t; unfold invoke, bind;
      unfold analyze, enrich, validate, translate, transmit, complete, cancel, fail;
      first [ rewrite (transition_illegal _ _ m H)
            | rewrite (async_transition_illegal _ _ m H) ];
      reflexivity.
  - reflexivity.
  - intros t' Ht. now apply terminal_not_available.
Qed.

(** An environment in which every collaborator answers: the clock reads 0.0
    first and 5.0 from then on, the analyzer classifies any message, the
    model reader yields no model, the POST is answered with 200, and the
    broker pushes nothing. *)
Definition sample_metadata : EdiMessageMetadata :=
  {| baseMessageType := TEXT;
     messageType := X12;
     specificationVersion := "005010X279A1";
     implementationVersions := None;
     messageSize := 509;
     recordCount := 17;
     checksum := "d7a928f396efa0bb15277991bd8d4d9a2506d751f9de8b344c1a3e5f8c45a409" |}.

Definition quiet_env : Env :=
  {| cfg := default_config;
     fs := no_files;
     expand := no_expand;
     clock := fun n => match n with O => 0%float | S _ => 5%float end;
     analyzer := fun _ => inr sample_metadata;
     x12_models := fun _ => inr [];
     http_post := fun _ => inr (str "{}", 200%Z);
     today := "2021-06-01";
     tls_setup := inr tt;
     nats_connect := inr tt;
     inbox := fun _ => [];
     decode_payload := fun _ => inl (ExternalError "Expecting value") |}.

(** C6, at [enrich] invoked on a fresh processor (state [init]). *)
Lemma illegal_transition_rejected_witness :
  invoke quiet_env t_enrich "" None (fresh_machine sample_text)
  = (Raised (InvalidTransitionError t_enrich init), fresh_machine sample_text)
  /\ exc_str (InvalidTransitionError t_enrich init)
     = "Transition 'enrich' isn't available from state 'init'."%string
  /\ (forall t', is_terminal init = true -> is_available t' init = false).
Proof.
  apply (illegal_transition_rejected quiet_env t_enrich "" None
           (fresh_machine sample_text)).
  reflexivity.
Defined.

(** C2 (amended). From every non-terminal state, [fail(reason, exception)]
    returns a result: its operation log is the processor's log with [FAIL]
    appended, its error list is the entry for [reason] followed, when an
    exception is given, by the entry for [str(exception)], and the state
    becomes [failed]. *)
Theorem fail_returns_result :
  forall (reason : string) (exception : option PyError) (m : Machine),
    is_terminal (state (proc m)) = false ->
    exists r m',
      fail reason exception m = (Returned r, m')
      /\ operations_of r = operations (proc m) ++ [FAIL]
      /\ errors r
         = PDict [("msg"%string, PStr reason)]
           :: match exception with
              | Some ex => [PDict [("msg"%string, PStr (exc_str ex))]]
              | None => []
              end
      /\ state (proc m') = failed.
Proof.
  intros reason exception m H. apply non_terminal_can_fail in H.
  unfold fail, transition. rewrite H.
  destruct exception as [ex|]; eexists; eexists; cbn; repeat split; reflexivity.
Qed.

(** C2 (amended), at [fail("boom")] on a fresh processor (state [init]): the
    log ends with [FAIL] and the errors hold the entry for ["boom"]. *)
Lemma fail_returns_result_witness :
  exists r m',
    fail "boom" None (fresh_machine sample_text) = (Returned r, m')
    /\ operations_of r = operations (proc (fresh_machine sample_text)) ++ [FAIL]
    /\ errors r = [PDict [("msg"%string, PStr "boom")]]
    /\ state (proc m') = failed.
Proof.
  apply (fail_returns_result "boom" None (fresh_machine sample_text)).
  reflexivity.
Defined.

(** C2 as stated fails in a terminal state: a second [fail] on a processor
    that has already failed raises [InvalidTransitionError] and returns no
    result. *)
Lemma fail_raises_when_failed :
  let m1 := snd (fail "boom" None (fresh_machine sample_text)) in
  state (proc m1) = failed
  /\ fail "boom" None m1 = (Raised (InvalidTransitionError t_fail failed), m1).
Proof. split; reflexivity. Qed.

(** *** Metrics *)

(** A result assembled from the processor carries a metrics object built
    anew, so its [totalTime] is the sum of the stage times. *)
Lemma result_totalTime_is_sum (p : Processor) :
  exists mt,
    metrics_of (_create_edi_result p) = Some mt
    /\ totalTime mt = stage_sum mt
    /\ stage_sum mt = stage_sum (metrics p).
Proof. eexists. repeat split. Qed.

(** *** What a call leaves alone *)

Section Frame.

(** An observation of the processor. *)
Context {A : Type} (f : Processor -> A).

(** The call [c] leaves the observation as it was, however it ends. *)
Definition frames {X} (c : M X) : Prop :=
  forall m, f (proc (snd (c m))) = f (proc m).

(** The attribute update [g] does not touch the observation. *)
Definition inert (g : Processor -> Processor) : Prop :=
  forall p, f (g p) = f p.

Lemma frames_ret {X} (x : X) : frames (ret x).
Proof. intros m. reflexivity. Qed.

Lemma frames_raise {X} (e : PyError) : frames (@raise X e).
Proof. intros m. reflexivity. Qed.

Lemma frames_lift {X} (r : Res X) : frames (lift r).
Proof. destruct r; [apply frames_raise|apply frames_ret]. Qed.

Lemma frames_self : frames self.
Proof. intros m. reflexivity. Qed.

Lemma frames_bind {X Y} (c : M X) (k : X -> M Y) :
  frames c -> (forall x, frames (k x)) -> frames (bind c k).
Proof.
  intros Hc Hk m. unfold bind. specialize (Hc m).
  destruct (c m) as [[x|e|] m1]; cbn in *; [|exact Hc|exact Hc].
  rewrite <- Hc. apply Hk.
Qed.

Lemma frames_modify (g : Processor -> Processor) : inert g -> frames (modify g).
Proof. intros Hg m. apply Hg. Qed.

Lemma frames_for_each {X} (xs : list X) (body : X -> M unit) :
  (forall x, frames (body x)) -> frames (for_each xs body).
Proof.
  intros Hb. induction xs as [|x xs IH]; [apply frames_ret|].
  cbn [for_each]. apply frames_bind; [apply Hb|intros _; exact IH].
Qed.

Lemma frames_swallow (c : M unit) : frames c -> frames (swallow c).
Proof.
  intros Hc m. unfold swallow. specialize (Hc m).
  destruct (c m) as [[x|e|] m1]; exact Hc.
Qed.

Lemma frames_when (b : bool) (c : M unit) : frames c -> frames (when b c).
Proof. intros Hc. destruct b; [exact Hc|apply frames_ret]. Qed.

Lemma frames_transition {X} (t : Transition) (c : M X) :
  inert (set_state (target t)) -> frames c -> frames (transition t c).
Proof.
  intros Hs Hc m. unfold transition.
  destruct (is_available t (state (proc m))); [|reflexivity].
  specialize (Hc m). destruct (c m) as [[x|e|] m1]; cbn in *; try exact Hc.
  now rewrite Hs.
Qed.

Lemma frames_async_transition {X} (t : Transition) (c : M X) :
  inert (set_state (target t)) -> frames c -> frames (async_transition t c).
Proof.
  intros Hs Hc m. unfold async_transition.
  destruct (is_available t (state (proc m))); [|reflexivity].
  rewrite Hc. cbn. apply Hs.
Qed.

Lemma frames_perf_counter_ms (env : Env) : frames (perf_counter_ms env).
Proof. intros m. reflexivity. Qed.

Lemma frames_print_271 (out : text) : frames (print_271 out).
Proof. intros m. reflexivity. Qed.

End Frame.

Ltac frames_step :=
  first
    [ apply frames_ret | apply frames_raise | apply frames_lift
    | apply frames_self | apply frames_perf_counter_ms
    | apply frames_print_271
    | apply frames_modify; intros ?p; reflexivity
    | apply frames_bind; [|intros ?x]
    | apply frames_for_each; intros ?x
    | apply frames_swallow
    | apply frames_transition; [intros ?p; reflexivity|]
    | apply frames_async_transition; [intros ?p; reflexivity|]
    | progress unfold translate_model, assign, operations_append
    | match goal with
      | |- frames _ (if ?b then _ else _) => destruct b
      | |- frames _ (match ?x with _ => _ end) => destruct x
      end ].

(** The observation of C1: the [totalTime] of the processor's metrics. *)
Definition live_totalTime (p : Processor) : float := totalTime (metrics p).

Lemma callback_keeps_totalTime (env : Env) (msg : Msg) :
  frames live_totalTime (nats_coverage_response_callback env msg).
Proof. unfold nats_coverage_response_callback. repeat frames_step. Qed.

Lemma event_loop_turn_keeps_totalTime (env : Env) :
  frames live_totalTime (event_loop_turn env).
Proof.
  intros m. unfold event_loop_turn.
  destruct (nats_client _) as [c|]; [|reflexivity].
  destruct (_ && _); [|reflexivity].
  match goal with
  | |- context [for_each ?xs ?body ?m1] =>
      rewrite (frames_for_each live_totalTime xs body)
  end; [reflexivity|].
  intros x. apply frames_swallow, callback_keeps_totalTime.
Qed.

(** No transition writes [totalTime]: however an invocation ends, the
    processor's [totalTime] is what it was before. *)
Lemma invoke_keeps_totalTime (env : Env) (t : Transition) (reason : string)
    (exception : option PyError) :
  frames live_totalTime (invoke env t reason exception).
Proof.
  destruct t; unfold invoke, analyze, enrich, validate, translate, transmit,
    complete, cancel, fail;
    repeat frames_step; apply event_loop_turn_keeps_totalTime.
Qed.

(** C1. On a fresh processor whose clock reads 0.0 and then 5.0, [analyze]
    (legal from [init]) returns and moves to [analyzed] with [analyzeTime]
    5.0, so the stage times sum to 5.0; [totalTime] still holds the 0.0 the
    constructor computed.  The two differ. *)
Theorem analyze_leaves_totalTime_stale :
  let m' := snd (analyze quiet_env (fresh_machine sample_text)) in
  fst (analyze quiet_env (fresh_machine sample_text)) = Returned tt
  /\ state (proc m') = analyzed
  /\ analyzeTime (metrics (proc m')) = 5%float
  /\ stage_sum (metrics (proc m')) = 5%float
  /\ totalTime (metrics (proc m')) = 0%float
  /\ PrimFloat.eqb (totalTime (metrics (proc m'))) (stage_sum (metrics (proc m')))
     = false.
Proof. repeat split; reflexivity. Qed.

(* ===================================================================== *)
(** ** The eligibility-check translate stage *)
(* ===================================================================== *)

(** The fixed paths [translate] reads in every model. *)
Definition eligibility_paths : list (list Sub) :=
  [ subscriber_segment ++ [Key "name_last_or_organization_name"];
    subscriber_segment ++ [Key "name_first"];
    subscriber_segment ++ [Key "identification_code"];
    trn_segment ++ [Key "originating_company_identifier"];
    insurer_segment ++ [Key "name_last_or_organization_name"];
    insurer_segment ++ [Key "identification_code"];
    provider_segment ++ [Key "name_last_or_organization_name"];
    provider_segment ++ [Key "identification_code"] ].

(** A path is absent from a model when following it raises. *)
Definition absent (path : list Sub) (model : PyVal) : Prop :=
  exists e, getpath path model = inl e.

Lemma getitem_error (v : PyVal) (s : Sub) (e : PyError) :
  getitem v s = inl e -> is_missing_field e = true.
Proof.
  destruct v, s; simpl; intros H;
    repeat match type of H with
           | context [match ?x with _ => _ end] => destruct x
           end;
    inversion H; reflexivity.
Qed.

Lemma getpath_error (path : list Sub) (v : PyVal) (e : PyError) :
  getpath path v = inl e -> is_missing_field e = true.
Proof.
  revert v. induction path as [|s path IH]; intros v; simpl; [discriminate|].
  destruct (getitem v s) as [e'|x] eqn:E; simpl.
  - intros H. inversion H; subst. now apply getitem_error in E.
  - apply IH.
Qed.

Lemma getpath_app (p q : list Sub) (v : PyVal) :
  getpath (p ++ q) v = rbind (getpath p v) (getpath q).
Proof.
  revert v. induction p as [|s p IH]; intros v; simpl; [reflexivity|].
  destruct (getitem v s); simpl; [reflexivity|apply IH].
Qed.

Lemma getpath_key (p : list Sub) (k : string) (model segment x : PyVal) :
  getpath p model = inr segment ->
  getitem segment (Key k) = inr x ->
  getpath (p ++ [Key k]) model = inr x.
Proof.
  intros Hp Hk. rewrite getpath_app, Hp. simpl. now rewrite Hk.
Qed.

Lemma bind_lift_inl {A B} (e : PyError) (k : A -> M B) (m : Machine) :
  bind (lift (inl e)) k m = (Raised e, m).
Proof. reflexivity. Qed.

Lemma bind_lift_inr {A B} (a : A) (k : A -> M B) (m : Machine) :
  bind (lift (inr a)) k m = k a m.
Proof. reflexivity. Qed.

Lemma bind_assign_inl {B} set segment key (e : PyError) (k : unit -> M B) m :
  getitem segment (Key key) = inl e ->
  bind (assign set segment key) k m = (Raised e, m).
Proof. intros H. unfold assign, bind, lift. now rewrite H. Qed.

Lemma bind_assign_inr {B} set segment key (v : PyVal) (k : unit -> M B) m :
  getitem segment (Key key) = inr v ->
  bind (assign set segment key) k m = k tt (with_proc (set v) m).
Proof. intros H. unfold assign, bind, lift. now rewrite H. Qed.

(** Every fixed path is there. *)
Definition paths_present (model : PyVal) : Prop :=
  Forall (fun path => exists v, getpath path model = inr v) eligibility_paths.

Lemma present_not_absent (model : PyVal) :
  paths_present model -> ~ Exists (fun path => absent path model) eligibility_paths.
Proof.
  intros Hp Ha. apply Exists_exists in Ha. destruct Ha as (path & Hin & e & He).
  unfold paths_present in Hp. rewrite Forall_forall in Hp.
  destruct (Hp path Hin) as [v Hv]. congruence.
Qed.

Ltac lookup_step :=
  lazymatch goal with
  | |- context [bind (lift ?r) _ _] =>
      is_var r;
      lazymatch goal with
      | E : r = getpath _ _ |- _ =>
          destruct r as [?e|?segment];
          [ rewrite bind_lift_inl; cbn beta iota;
            exact (getpath_error _ _ _ (eq_sym E))
          | rewrite bind_lift_inr ]
      end
  | |- context [bind (assign ?set ?seg ?key) _ _] =>
      let E := fresh "E" in
      destruct (getitem seg (Key key)) as [?e|?v] eqn:E;
      [ rewrite (bind_assign_inl _ _ _ _ _ _ E); cbn beta iota;
        exact (getitem_error _ _ _ E)
      | rewrite (bind_assign_inr _ _ _ _ _ _ E) ]
  end.

(** One round of the loop of [translate]: it raises a missing-field fault, or
    every fixed path is present and the round appends one [TRANSLATE] entry
    and leaves the state field alone. *)
Lemma translate_model_spec (env : Env) (start : float) (model : PyVal) (m : Machine) :
  match translate_model env start model m with
  | (Returned _, m') =>
      paths_present model
      /\ operations (proc m') = operations (proc m) ++ [TRANSLATE]
      /\ state (proc m') = state (proc m)
  | (Raised e, _) => is_missing_field e = true
  | (Pending, _) => False
  end.
Proof.
  unfold translate_model.
  remember (getpath subscriber_segment model) as r1 eqn:E1.
  remember (getpath trn_segment model) as r2 eqn:E2.
  remember (getpath insurer_segment model) as r3 eqn:E3.
  remember (getpath provider_segment model) as r4 eqn:E4.
  do 12 lookup_step.
  cbn -[_create_request paths_present].
  split; [|split; reflexivity].
  unfold paths_present, eligibility_paths.
  repeat apply Forall_cons; [..|apply Forall_nil].
  - eexists; exact (getpath_key _ _ _ _ _ (eq_sym E1) E).
  - eexists; exact (getpath_key _ _ _ _ _ (eq_sym E1) E0).
  - eexists; exact (getpath_key _ _ _ _ _ (eq_sym E1) E5).
  - eexists; exact (getpath_key _ _ _ _ _ (eq_sym E2) E6).
  - eexists; exact (getpath_key _ _ _ _ _ (eq_sym E3) E7).
  - eexists; exact (getpath_key _ _ _ _ _ (eq_sym E3) E8).
  - eexists; exact (getpath_key _ _ _ _ _ (eq_sym E4) E9).
  - eexists; exact (getpath_key _ _ _ _ _ (eq_sym E4) E10).
Qed.

Lemma translate_loop_spec (env : Env) (start : float) (models : list PyVal) :
  forall m,
    match for_each models (translate_model env start) m with
    | (Returned _, m') =>
        Forall paths_present models
        /\ operations (proc m')
           = operations (proc m) ++ repeat TRANSLATE (List.length models)
        /\ state (proc m') = state (proc m)
    | (Raised e, _) => is_missing_field e = true
    | (Pending, _) => False
    end.
Proof.
  induction models as [|model models IH]; intros m.
  - cbn. repeat split; [constructor|now rewrite app_nil_r].
  - cbn [for_each]. unfold bind.
    pose proof (translate_model_spec env start model m) as H1.
    destruct (translate_model env start model m) as [[[]|e|] m1]; try exact H1.
    destruct H1 as (Hp & Hops & Hst).
    specialize (IH m1).
    destruct (for_each models (translate_model env start) m1) as [[[]|e|] m2];
      try exact IH.
    destruct IH as (Hps & Hops' & Hst').
    split; [now constructor|]. split; [|congruence].
    rewrite Hops', Hops, <- app_assoc. reflexivity.
Qed.

(** The machine on which the body of an awaited [translate] starts: the
    state is already [translated] and the clock was read once. *)
Definition translate_entry (m : Machine) : Machine :=
  {| proc := set_state translated (proc m); ticks := S (ticks m);
     turns := turns m; printed := printed m |}.

Lemma translate_unfold (env : Env) (m : Machine) (models : list PyVal) :
  is_available t_translate (state (proc m)) = true ->
  x12_models env (input_message (proc m)) = inr models ->
  translate env m
  = for_each models (translate_model env (clock env (ticks m))) (translate_entry m).
Proof.
  intros Ha Hm. unfold translate, async_transition. rewrite Ha.
  unfold bind, perf_counter_ms, self, lift. cbn. rewrite Hm. reflexivity.
Qed.

(** A model holds a path when it is made of dictionaries and lists that hold
    each key and each index of the path in turn.  This is read off the data,
    not off the subscripts: a key bound to [None] is held, a dictionary
    without the key, a list that is too short, or anything else in the place
    of a dictionary or a list is not. *)
Fixpoint holds_path (path : list Sub) (v : PyVal) : bool :=
  match path with
  | [] => true
  | Key k :: path' =>
      match v with
      | PDict d =>
          match assoc k d with
          | Some x => holds_path path' x
          | None => false
          end
      | _ => false
      end
  | Idx i :: path' =>
      match v with
      | PList l =>
          match nth_error l i with
          | Some x => holds_path path' x
          | None => false
          end
      | _ => false
      end
  end.

(** Every index of the path is followed by a key, as in the paths
    [translate] reads. *)
Fixpoint keyed (path : list Sub) : bool :=
  match path with
  | [] => true
  | Key _ :: path' => keyed path'
  | Idx _ :: path' =>
      match path' with
      | Key _ :: _ => keyed path'
      | _ => false
      end
  end.

(** The subscripts succeed only on a path the model holds. *)
Lemma getpath_holds (path : list Sub) :
  keyed path = true ->
  forall v x, getpath path v = inr x -> holds_path path v = true.
Proof.
  induction path as [|s path IH]; intros Hk v x H; [reflexivity|].
  destruct s as [k|i].
  - cbn in Hk. destruct v; cbn in H; try discriminate.
    cbn [holds_path]. destruct (assoc k d) as [y|]; [|discriminate].
    exact (IH Hk y x H).
  - assert (Hk' : keyed path = true /\ exists k rest, path = Key k :: rest).
    { cbn in Hk. destruct path as [|[k|j] rest]; try discriminate. eauto. }
    destruct Hk' as (Hk' & k & rest & Hp).
    destruct v; cbn in H; try discriminate.
    + destruct (String.get i s) as [c|]; [|discriminate].
      rewrite Hp in H. discriminate.
    + cbn [holds_path]. destruct (nth_error l i) as [y|]; [|discriminate].
      exact (IH Hk' y x H).
Qed.

Lemma unheld_path_absent (path : list Sub) (model : PyVal) :
  keyed path = true -> holds_path path model = false -> absent path model.
Proof.
  intros Hk Hh. unfold absent.
  destruct (getpath path model) as [e|x] eqn:E; [eauto|].
  apply (getpath_holds path Hk) in E. congruence.
Qed.

Lemma eligibility_paths_keyed :
  Forall (fun path => keyed path = true) eligibility_paths.
Proof. repeat constructor. Qed.

(** C4 (amended). When the input parses into models and one of them does not
    hold one of the fixed paths the translate stage reads (transaction id,
    subscriber, payer and provider identity fields), because a dictionary on
    the way lacks the key, a list is too short, or the place of a dictionary
    or a list is taken by [None] or another value, [translate], called in a
    state it is legal in, raises a missing-field fault: the [KeyError],
    [IndexError] or [TypeError] of the subscript that finds nothing. *)
Theorem translate_raises_on_missing_field :
  forall (env : Env) (m : Machine) (models : list PyVal),
    is_available t_translate (state (proc m)) = true ->
    x12_models env (input_message (proc m)) = inr models ->
    Exists (fun model =>
              Exists (fun path => holds_path path model = false)
                     eligibility_paths)
           models ->
    exists e m',
      translate env m = (Raised e, m') /\ is_missing_field e = true.
Proof.
  intros env m models Ha Hm Hex.
  assert (Hab : Exists (fun model =>
                          Exists (fun path => absent path model)
                                 eligibility_paths) models).
  { apply Exists_exists in Hex. destruct Hex as (model & Hin & Hp).
    apply Exists_exists. exists model. split; [exact Hin|].
    apply Exists_exists in Hp. destruct Hp as (path & Hpin & Hh).
    apply Exists_exists. exists path. split; [exact Hpin|].
    apply unheld_path_absent; [|exact Hh].
    pose proof eligibility_paths_keyed as Hk. rewrite Forall_forall in Hk.
    now apply Hk. }
  clear Hex. rename Hab into Hex.
  rewrite (translate_unfold env m models Ha Hm).
  pose proof (translate_loop_spec env (clock env (ticks m)) models (translate_entry m)) as H.
  destruct (for_each models _ _) as [[[]|e|] m'].
  - destruct H as (Hall & _). exfalso.
    apply Exists_exists in Hex. destruct Hex as (model & Hin & Hab).
    rewrite Forall_forall in Hall.
    exact (present_not_absent model (Hall model Hin) Hab).
  - eauto.
  - contradiction.
Qed.

(** An [nm1_segment] holder (a loop of the parsed 270). *)
Definition nm1_loop (name first id : string) : PyVal :=
  PDict [("nm1_segment"%string,
          PDict [("name_last_or_organization_name"%string, PStr name);
                 ("name_first"%string, PStr first);
                 ("identification_code"%string, PStr id)])].

(** A parsed 270 transaction set with every path [translate] reads. *)
Definition sample_model (trn : string) : PyVal :=
  PDict [("loop_2000a"%string, PList [PDict [
    ("loop_2100a"%string, nm1_loop "UNIFIED INSURANCE CO" "" "842610001");
    ("loop_2000b"%string, PList [PDict [
      ("loop_2100b"%string, nm1_loop "HAPPY DOCTORS GROUP" "" "1234567893");
      ("loop_2000c"%string, PList [PDict [
        ("loop_2100c"%string, nm1_loop "DOE" "JOHN" "11122333301");
        ("trn_segment"%string,
         PList [PDict [("originating_company_identifier"%string, PStr trn)]])
      ]])
    ]])
  ]])].

(** A parsed transaction set whose information-source loop list is empty. *)
Definition broken_model : PyVal := PDict [("loop_2000a"%string, PList [])].

(** [quiet_env] with a model reader that yields [models]. *)
Definition env_with_models (models : list PyVal) : Env :=
  {| cfg := cfg quiet_env; fs := fs quiet_env; expand := expand quiet_env;
     clock := clock quiet_env; analyzer := analyzer quiet_env;
     x12_models := fun _ => inr models;
     http_post := http_post quiet_env; today := today quiet_env;
     tls_setup := tls_setup quiet_env; nats_connect := nats_connect quiet_env;
     inbox := inbox quiet_env; decode_payload := decode_payload quiet_env |}.

(** A processor that has analyzed its message. *)
Definition analyzed_machine : Machine :=
  snd (analyze quiet_env (fresh_machine sample_text)).

(** C4, at an input whose second model lacks the information-source loop. *)
Lemma translate_raises_on_missing_field_witness :
  exists e m',
    translate (env_with_models [sample_model "T1"; broken_model]) analyzed_machine
    = (Raised e, m')
    /\ is_missing_field e = true.
Proof.
  apply (translate_raises_on_missing_field
           (env_with_models [sample_model "T1"; broken_model]) analyzed_machine
           [sample_model "T1"; broken_model]).
  - reflexivity.
  - reflexivity.
  - apply Exists_cons_tl, Exists_cons_hd, Exists_cons_hd. reflexivity.
Defined.

(** A parsed 270 transaction set whose subscriber has no first name: the
    model's [dict()] keeps the key and binds it to [None]. *)
Definition model_without_first_name : PyVal :=
  PDict [("loop_2000a"%string, PList [PDict [
    ("loop_2100a"%string, nm1_loop "UNIFIED INSURANCE CO" "" "842610001");
    ("loop_2000b"%string, PList [PDict [
      ("loop_2100b"%string, nm1_loop "HAPPY DOCTORS GROUP" "" "1234567893");
      ("loop_2000c"%string, PList [PDict [
        ("loop_2100c"%string,
         PDict [("nm1_segment"%string,
                 PDict [("name_last_or_organization_name"%string, PStr "DOE");
                        ("name_first"%string, PNone);
                        ("identification_code"%string, PStr "11122333301")])]);
        ("trn_segment"%string,
         PList [PDict [("originating_company_identifier"%string, PStr "T1")]])
      ]])
    ]])
  ]])].

(** C4 as stated fails for a field that is absent from the message the way
    the parsed models render it, as a key bound to [None]: every subscript
    succeeds, [translate] returns, and the processor holds [None] as the
    subscriber's first name. *)
Lemma translate_returns_on_none_field :
  let r := translate (env_with_models [model_without_first_name])
                     analyzed_machine in
  getpath (subscriber_segment ++ [Key "name_first"]) model_without_first_name
  = inr PNone
  /\ fst r = Returned tt
  /\ subscriber_first (proc (snd r)) = PNone
  /\ operations (proc (snd r)) = [ANALYZE; TRANSLATE].
Proof. repeat split; reflexivity. Qed.

(** A [translate] that returns has appended one [TRANSLATE] entry for every
    model the input parsed into. *)
Lemma translate_appends_per_model (env : Env) (m m' : Machine) (models : list PyVal) :
  is_available t_translate (state (proc m)) = true ->
  x12_models env (input_message (proc m)) = inr models ->
  translate env m = (Returned tt, m') ->
  operations (proc m')
  = operations (proc m) ++ repeat TRANSLATE (List.length models).
Proof.
  intros Ha Hm Ht. rewrite (translate_unfold env m models Ha Hm) in Ht.
  pose proof (translate_loop_spec env (clock env (ticks m)) models (translate_entry m)) as H.
  rewrite Ht in H. destruct H as (_ & Hops & _). exact Hops.
Qed.

(** C10. An input that parses into two models: [translate] returns, and the
    operation log has gained two [TRANSLATE] entries; the request held at the
    end is the one built in the second round.  An input that parses into no
    model: [translate] returns with the state [translated], no [TRANSLATE]
    entry and no request.  The base class's [translate] appends exactly one
    entry. *)
Theorem translate_log_follows_model_count :
  (let r := translate (env_with_models [sample_model "T1"; sample_model "T2"])
                      analyzed_machine in
   fst r = Returned tt
   /\ operations (proc (snd r)) = [ANALYZE; TRANSLATE; TRANSLATE]
   /\ getpath [Key "id"] (transmit_data (proc (snd r))) = inr (PStr "T2"))
  /\
  (let r := translate (env_with_models []) analyzed_machine in
   fst r = Returned tt
   /\ state (proc (snd r)) = translated
   /\ operations (proc (snd r)) = [ANALYZE]
   /\ transmit_data (proc (snd r)) = PNone)
  /\
  (let r := EdiProcessor_translate quiet_env analyzed_machine in
   fst r = Returned tt
   /\ operations (proc (snd r)) = [ANALYZE; TRANSLATE]).
Proof. repeat split; reflexivity. Qed.

(* ===================================================================== *)
(** ** The response correlator *)
(* ===================================================================== *)

(** C9. When the payload of an inbound message decodes and its correlation
    id ([identifier[0].value]) differs from the processor's transaction id,
    the callback returns and the machine is what it was: [message_received]
    keeps its value (so stays false), nothing is added to the rewritten
    templates, and no attribute of the processor changes. *)
Theorem callback_ignores_other_transaction :
  forall (env : Env) (msg : Msg) (m : Machine) (message id : PyVal),
    decode_payload env (data msg) = inr message ->
    getpath [Key "identifier"; Idx 0; Key "value"] message = inr id ->
    py_eqb id (transaction_id (proc m)) = false ->
    nats_coverage_response_callback env msg m = (Returned tt, m).
Proof.
  intros env msg m message id Hd Hid Hne.
  unfold nats_coverage_response_callback.
  rewrite Hd, bind_lift_inr, Hid, bind_lift_inr.
  unfold bind at 1, self. cbn beta iota. now rewrite Hne.
Qed.

(** The payload of a coverage response for the transaction [trn]. *)
Definition coverage_response (trn : string) (inforce : bool) : PyVal :=
  PDict [("identifier"%string, PList [PDict [("value"%string, PStr trn)]]);
         ("insurance"%string, PList [PDict [("inforce"%string, PBool inforce)]])].

(** A 270 with one transaction set, and the 271 template. *)
Definition sample_270 : text :=
  sample_header ++ str "ST*270*0001~TRN*1*T1*9~SE*3*0001~".

Definition sample_271 : text :=
  sample_header
  ++ str "ST*271*0001~NM1*PR*2*X*****PI*Y~NM1*1P*2*P*****XX*Q~"
  ++ str "NM1*IL*1*L*F****MI*I~TRN*2*R*9~EB*6**30~SE*7*0001~".

(** An environment in which a whole run succeeds: the files [edi.x12] and
    [./samples/271.x12] exist, the input parses into one model with
    transaction id [T1], and during the second turn of the event loop the
    broker pushes a response for another transaction and then the response
    for [T1]. *)
Definition live_env : Env :=
  {| cfg := default_config;
     fs := fun path =>
             if text_eqb path (str "edi.x12") then Some sample_270
             else if text_eqb path (str "./samples/271.x12") then Some sample_271
             else None;
     expand := no_expand;
     clock := fun n => PrimFloat.of_uint63 (Uint63.of_Z (Z.of_nat n));
     analyzer := fun _ => inr sample_metadata;
     x12_models := fun _ => inr [sample_model "T1"];
     http_post := fun _ => inr (str "{}", 200%Z);
     today := "2021-06-01";
     tls_setup := inr tt;
     nats_connect := inr tt;
     inbox := fun turn =>
                match turn with
                | 1 => [ {| subject := "eligibility.EVENTS"; reply := "";
                            data := [Byte.x00] |};
                         {| subject := "eligibility.EVENTS"; reply := "";
                            data := [Byte.x01] |} ]
                | _ => []
                end;
     decode_payload := fun d =>
                match d with
                | [Byte.x00] => inr (coverage_response "OTHER" true)
                | [Byte.x01] => inr (coverage_response "T1" true)
                | _ => inl (ExternalError "Expecting value")
                end |}.

(** The machine of [live_env] once [translate] has run. *)
Definition translated_machine : Machine :=
  snd (translate live_env analyzed_machine).

Example translated_machine_id :
  transaction_id (proc translated_machine) = PStr "T1".
Proof. reflexivity. Qed.

(** C9, at the response for transaction [OTHER] while [T1] is in flight. *)
Lemma callback_ignores_other_transaction_witness :
  nats_coverage_response_callback live_env
    {| subject := "eligibility.EVENTS"; reply := ""; data := [Byte.x00] |}
    translated_machine
  = (Returned tt, translated_machine).
Proof.
  apply (callback_ignores_other_transaction live_env _ translated_machine
           (coverage_response "OTHER" true) (PStr "OTHER"));
    reflexivity.
Defined.

(** The matching response is not ignored: the template is rewritten with the
    processor's identity fields and the flag is set. *)
Example callback_resolves_matching_transaction :
  let r := nats_coverage_response_callback live_env
             {| subject := "eligibility.EVENTS"; reply := ""; data := [Byte.x01] |}
             translated_machine in
  fst r = Returned tt
  /\ message_received (proc (snd r)) = true
  /\ printed (snd r)
     = [sample_isa
        ++ str "~ST*271*0001~NM1*PR*2*UNIFIED INSURANCE CO*****PI*842610001"
        ++ str "~NM1*1P*2*HAPPY DOCTORS GROUP*****XX*1234567893"
        ++ str "~NM1*IL*1*DOE*JOHN****MI*11122333301~TRN*2*T1*9~EB*1**30~SE*7*0001"].
Proof. repeat split; reflexivity. Qed.

(* ===================================================================== *)
(** ** The subscription over a processing run *)
(* ===================================================================== *)




(** The keyword arguments of a run with every stage switched on. *)
Definition all_stages : Kwargs :=
  {| kw_enrich := true; kw_validate := true; kw_translate := true;
     kw_transmit := true |}.

(** A run of [live_env] observed for two sleeps, and the result it returns
    (the result of an untouched processor if it returned none). *)
Definition live_run : Outcome EdiResult * Machine :=
  process_edi live_env (str "edi.x12") all_stages 2 (fresh_machine []).

Definition live_result : EdiResult :=
  match fst live_run with
  | Returned r => r
  | _ => _create_edi_result (proc (fresh_machine []))
  end.


Example live_run_operations :
  match fst (process_edi live_env (str "edi.x12") all_stages 2 (fresh_machine [])) with
  | Returned r =>
      operations_of r = [ANALYZE; ENRICH; VALIDATE; TRANSLATE; TRANSMIT; COMPLETE]
  | _ => False
  end.
Proof. vm_compute. reflexivity. Qed.

(** An environment whose analyzer rejects every message. *)
Definition unanalyzable_env : Env :=
  {| cfg := cfg live_env; fs := fs live_env; expand := expand live_env;
     clock := clock live_env;
     analyzer := fun _ => inl (ExternalError "Unsupported message format");
     x12_models := x12_models live_env; http_post := http_post live_env;
     today := today live_env; tls_setup := tls_setup live_env;
     nats_connect := nats_connect live_env; inbox := inbox live_env;
     decode_payload := decode_payload live_env |}.


(* ===================================================================== *)
(** * Further properties of the code *)
(* ===================================================================== *)

(* ===================================================================== *)
(** ** The segment reader, whatever the text holds *)
(* ===================================================================== *)

(** The characters of a text other than [t], in order. *)
Definition without (t : ascii) (s : text) : text :=
  filter (fun c => negb (Ascii.eqb c t)) s.

Lemma split_parts_free (t : ascii) (s : text) :
  Forall (fun part => Forall (fun c => c <> t) part) (split t s).
Proof.
  induction s as [|c s IH]; simpl; [repeat constructor|].
  destruct (Ascii.eqb_spec c t) as [E|N].
  - constructor; [constructor|exact IH].
  - destruct (split t s) as [|h tl]; [repeat constructor; exact N|].
    inversion IH; subst. constructor; [constructor; assumption|assumption].
Qed.

Lemma concat_split (t : ascii) (s : text) :
  List.concat (split t s) = without t s.
Proof.
  induction s as [|c s IH]; [reflexivity|].
  simpl. destruct (Ascii.eqb c t); simpl; [exact IH|].
  pose proof (split_not_nil t s) as Hn.
  destruct (split t s) as [|h tl]; [contradiction|].
  simpl in *. now rewrite IH.
Qed.

Lemma join_cons (sep p : list ascii) (ps : list (list ascii)) :
  ps <> [] -> join sep (p :: ps) = p ++ sep ++ join sep ps.
Proof. destruct ps; [contradiction|reflexivity]. Qed.

Lemma join_split (t : ascii) (s : text) : join [t] (split t s) = s.
Proof.
  induction s as [|c s IH]; [reflexivity|].
  cbn [split]. pose proof (split_not_nil t s) as Hn.
  destruct (Ascii.eqb_spec c t) as [E|N]; cbv iota.
  - subst c. rewrite (join_cons [t] [] (split t s) Hn), IH. reflexivity.
  - destruct (split t s) as [|h tl] eqn:Es; [contradiction|].
    destruct tl as [|h' tl'].
    + cbn [join] in *. now rewrite IH.
    + rewrite join_cons in IH |- * by discriminate.
      cbn [app]. now rewrite <- IH.
Qed.

Lemma length_split (t : ascii) (s : text) :
  List.length (split t s) = S (count_occ ascii_dec s t).
Proof.
  induction s as [|c s IH]; [reflexivity|].
  simpl. pose proof (split_not_nil t s) as Hn.
  destruct (Ascii.eqb_spec c t) as [E|N].
  - subst c. destruct (ascii_dec t t); [|contradiction]. simpl. now rewrite IH.
  - destruct (ascii_dec c t); [contradiction|].
    destruct (split t s) as [|h tl]; [contradiction|]. exact IH.
Qed.

Lemma without_rstrip (t : ascii) (s : text) :
  without t (rstrip t s) = without t s.
Proof.
  induction s as [|c s IH]; [reflexivity|].
  simpl. destruct (rstrip t s) as [|x r] eqn:E.
  - simpl in IH. destruct (Ascii.eqb c t) eqn:Ec; simpl; rewrite ?Ec; simpl;
      [exact IH|now rewrite <- IH].
  - change (without t (c :: x :: r)) with
      (if negb (Ascii.eqb c t) then c :: without t (x :: r) else without t (x :: r)).
    rewrite IH. reflexivity.
Qed.

Lemma rstrip_app (t : ascii) (a b : text) :
  rstrip t (a ++ b)
  = match rstrip t b with
    | [] => rstrip t a
    | _ :: _ => a ++ rstrip t b
    end.
Proof.
  induction a as [|c a IH]; simpl.
  - destruct (rstrip t b); reflexivity.
  - rewrite IH. destruct (rstrip t b) as [|x r]; [reflexivity|].
    destruct (a ++ x :: r) eqn:E; [destruct a; discriminate|reflexivity].
Qed.

Lemma rstrip_free (t : ascii) (h : text) :
  Forall (fun c => c <> t) h -> rstrip t h = h.
Proof.
  induction 1 as [|c h Hc _ IH]; [reflexivity|].
  simpl. rewrite IH. destruct h; [|reflexivity].
  destruct (Ascii.eqb_spec c t); [contradiction|reflexivity].
Qed.

Lemma rstrip_cons_cases (t c : ascii) (s : text) :
  rstrip t (c :: s) = [] \/ exists r, rstrip t (c :: s) = c :: r.
Proof.
  simpl. destruct (rstrip t s); [|right; eauto].
  destruct (Ascii.eqb c t); [left|right; eauto]; reflexivity.
Qed.

(** The first piece of a stripped text that starts with a terminator-free,
    non-empty run closed by a terminator is that run. *)
Lemma split_rstrip_head (t : ascii) (h x : text) :
  h <> [] -> Forall (fun c => c <> t) h ->
  exists tail, split t (rstrip t (h ++ t :: x)) = h :: tail.
Proof.
  intros Hne Hfree. rewrite rstrip_app.
  destruct (rstrip_cons_cases t t x) as [E|[r E]]; rewrite E.
  - rewrite (rstrip_free t h Hfree), (split_free t h Hfree). eauto.
  - rewrite split_app_sep, (split_free t h Hfree). simpl. eauto.
Qed.

Lemma prefix_reaches_sep (t : ascii) (h : text) :
  Forall (fun c => c <> t) h ->
  forall buffer rest2 rest,
    buffer ++ rest2 = h ++ t :: rest -> In t buffer ->
    exists x, buffer = h ++ t :: x.
Proof.
  induction 1 as [|c h Hc _ IH]; intros buffer rest2 rest Heq Hin.
  - destruct buffer as [|b buffer]; [contradiction|].
    simpl in Heq. inversion Heq; subst. eexists. reflexivity.
  - destruct buffer as [|b buffer]; [contradiction|].
    simpl in Heq. inversion Heq; subst.
    destruct Hin as [E|Hin]; [congruence|].
    destruct (IH buffer rest2 rest H1 Hin) as [x ->]. eexists. reflexivity.
Qed.

Lemma segments_loop_nil (bs : Z) (t : ascii) : segments_loop bs t [] = [].
Proof.
  remember [] as s eqn:Es. funelim (segments_loop bs t s); [reflexivity|].
  pose proof (read_app e1) as Hr. subst. discriminate.
Qed.

Lemma segments_loop_free (bs : Z) (t : ascii) (s : text) :
  Forall (fun segment => ~ In t segment) (segments_loop bs t s).
Proof.
  funelim (segments_loop bs t s); [constructor|].
  apply Forall_app. split; [|exact H].
  eapply Forall_impl; [|apply split_parts_free].
  intros part Hp Hin. rewrite Forall_forall in Hp. now apply (Hp term Hin).
Qed.

(** X1. Whatever the buffer size and the text, no segment [segments] yields
    contains the terminator. *)
Theorem segments_are_terminator_free :
  forall r : X12SegmentReader,
    Forall (fun segment => ~ In (segment_terminator r) segment) (segments r).
Proof. intros r. apply segments_loop_free. Qed.

Lemma segments_loop_without (bs : Z) (t : ascii) (s : text) :
  bs <> 0%Z -> List.concat (segments_loop bs t s) = without t s.
Proof.
  funelim (segments_loop bs t s); intros Hbs.
  - destruct rest as [|x rest]; [reflexivity|].
    exfalso. apply (read_nonempty bs (x :: rest) Hbs); [discriminate|].
    now rewrite e.
  - clear H0 H1 Heqcall.
    pose proof (read_app e1) as Hr.
    pose proof (extend_app e2) as [Happ _].
    rewrite concat_app, concat_split, without_rstrip, (H Hbs).
    unfold without. rewrite <- filter_app. congruence.
Qed.

(** X2. With a non-zero buffer size, the segments yielded, put end to end,
    are the stream with its terminators removed: no other character is
    lost, repeated or moved, wherever the chunks end. *)
Theorem segments_keep_every_other_character :
  forall r : X12SegmentReader,
    buffer_size r <> 0%Z ->
    List.concat (segments r) = without (segment_terminator r) (x12_stream r).
Proof. intros r H. now apply segments_loop_without. Qed.

(** X2, at [sample_reader]. *)
Lemma segments_keep_every_other_character_witness :
  List.concat (segments sample_reader) = without "~" sample_text.
Proof.
  apply (segments_keep_every_other_character sample_reader). discriminate.
Defined.

Lemma extend_nil (t : ascii) (buffer : text) : extend t buffer [] = (buffer, []).
Proof. simpl. destruct (ends_on t buffer); reflexivity. Qed.

Lemma segments_loop_whole (bs : Z) (t : ascii) (s : text) :
  (bs < 0 \/ Z.of_nat (List.length s) <= bs)%Z -> s <> [] ->
  segments_loop bs t s = split t (rstrip t s).
Proof.
  intros Hbs Hs.
  assert (Hread : read bs s = (s, [])).
  { destruct (bs <? 0)%Z eqn:E.
    - unfold read. now rewrite E.
    - apply Z.ltb_ge in E. apply read_short. lia. }
  funelim (segments_loop bs t s).
  - pose proof (eq_trans (eq_sym Hread) e) as E0. inversion E0. contradiction.
  - pose proof (eq_trans (eq_sym Hread) e1) as E1. inversion E1; subst.
    pose proof (eq_trans (eq_sym (extend_nil term (c :: b))) e2) as E2.
    inversion E2; subst.
    rewrite segments_loop_nil. apply app_nil_r.
Qed.

(** X3. When the buffer holds the whole stream (its size is negative, or at
    least the length of the stream), [segments] yields the pieces of the
    stream stripped of its trailing terminators: empty segments inside the
    text are yielded, those at its end are not. *)
Theorem segments_of_one_chunk :
  forall r : X12SegmentReader,
    (buffer_size r < 0 \/ Z.of_nat (List.length (x12_stream r)) <= buffer_size r)%Z ->
    x12_stream r <> [] ->
    segments r
    = split (segment_terminator r) (rstrip (segment_terminator r) (x12_stream r)).
Proof. intros r H1 H2. now apply segments_loop_whole. Qed.

(** X3, at [sample_reader] (127 characters in a buffer of 1024000). *)
Lemma segments_of_one_chunk_witness :
  segments sample_reader = split "~" (rstrip "~" sample_text).
Proof.
  apply (segments_of_one_chunk sample_reader).
  - right. vm_compute. discriminate.
  - discriminate.
Defined.

Lemma segments_loop_head (bs : Z) (t : ascii) (s : text) :
  bs <> 0%Z ->
  forall h rest,
    s = h ++ t :: rest -> h <> [] -> Forall (fun c => c <> t) h ->
    exists tail, segments_loop bs t s = h :: tail.
Proof.
  funelim (segments_loop bs t s); intros Hbs h rest0 Hs Hne Hfree.
  - exfalso. apply (read_nonempty bs rest Hbs).
    + subst rest. destruct h; discriminate.
    + now rewrite e.
  - clear H H0 H1 Heqcall.
    pose proof (read_app e1) as Hr.
    pose proof (extend_app e2) as [Happ Hlen].
    assert (Heq : buffer ++ rest2 = h ++ term :: rest0) by congruence.
    assert (Hin : In term buffer).
    { destruct (extend_stops _ _ _ _ _ e2) as [He|He].
      - apply ends_on_inv in He. destruct He as [a ->].
        apply in_or_app. right. now left.
      - subst rest2. rewrite app_nil_r in Heq. subst buffer.
        apply in_or_app. right. now left. }
    destruct (prefix_reaches_sep term h Hfree buffer rest2 rest0 Heq Hin) as [x ->].
    destruct (split_rstrip_head term h x Hne Hfree) as [tail ->].
    simpl. eauto.
Qed.

(** X4. With a non-zero buffer size, when the stream starts with a non-empty
    run free of the terminator and closed by it (the ISA header), that run is
    the first segment yielded. *)
Theorem first_segment_is_the_header :
  forall (r : X12SegmentReader) (header rest : text),
    buffer_size r <> 0%Z ->
    x12_stream r = header ++ segment_terminator r :: rest ->
    header <> [] ->
    Forall (fun c => c <> segment_terminator r) header ->
    exists tail, segments r = header :: tail.
Proof.
  intros r header rest Hbs Hs Hne Hfree. unfold segments.
  exact (segments_loop_head (buffer_size r) (segment_terminator r) (x12_stream r)
           Hbs header rest Hs Hne Hfree).
Qed.

(** X4, at [sample_reader]. *)
Lemma first_segment_is_the_header_witness :
  exists tail, segments sample_reader = sample_isa :: tail.
Proof.
  apply (first_segment_is_the_header sample_reader sample_isa
           (str "ST*270*0001~SE*2*0001")).
  - discriminate.
  - reflexivity.
  - discriminate.
  - vm_compute. repeat constructor; discriminate.
Defined.

(** X5. Splitting a segment on a one-character delimiter always succeeds
    with at least one element; the elements do not contain the delimiter,
    there is one more of them than delimiters in the segment, and joining
    them with the delimiter gives the segment back.  The empty delimiter is
    refused with [ValueError]. *)
Theorem elements_split_and_rejoin :
  forall (segment : text) (d : ascii),
    (exists els,
       elements segment (Some d) = inr els
       /\ join [d] els = segment
       /\ List.length els = S (count_occ ascii_dec segment d)
       /\ Forall (fun e => ~ In d e) els)
    /\ elements segment None = inl (ValueError "empty separator").
Proof.
  intros segment d. split; [|reflexivity].
  exists (split d segment). split; [reflexivity|].
  split; [apply join_split|]. split; [apply length_split|].
  eapply Forall_impl; [|apply split_parts_free].
  intros part Hp Hin. rewrite Forall_forall in Hp. now apply (Hp d Hin).
Qed.

(* ===================================================================== *)
(** ** Opening the reader: when it succeeds *)
(* ===================================================================== *)

Lemma str_index_inv (s : text) (i : Z) (c : ascii) :
  (0 <= i)%Z -> str_index s i = inr c -> nth_error s (Z.to_nat i) = Some c.
Proof.
  intros Hi. unfold str_index.
  destruct (i <? 0)%Z eqn:E; [apply Z.ltb_lt in E; lia|].
  destruct (_ || _)%bool; [discriminate|].
  destruct (nth_error s (Z.to_nat i)); [|discriminate].
  intros H. now inversion H.
Qed.

Lemma set_delimiters_inv (stream : text) (es rs st : ascii) :
  _set_delimiters default_config stream = inr (es, rs, st) ->
  nth_error stream 3 = Some es
  /\ nth_error stream 82 = Some rs
  /\ nth_error stream 105 = Some st.
Proof.
  unfold _set_delimiters, rbind.
  change (isa_segment_length default_config) with 106%Z.
  change (isa_element_separator default_config) with 3%Z.
  change (isa_repetition_separator default_config) with 82%Z.
  change (isa_segment_terminator default_config) with 105%Z.
  unfold read. change (106 <? 0)%Z with false. cbn [fst].
  change (Z.to_nat 106) with 106.
  destruct (str_index (firstn 106 stream) 3) as [|a] eqn:E1; [discriminate|].
  destruct (str_index (firstn 106 stream) 82) as [|b] eqn:E2; [discriminate|].
  destruct (str_index (firstn 106 stream) 105) as [|c] eqn:E3; [discriminate|].
  intros H. inversion H; subst.
  apply str_index_inv in E1, E2, E3; try lia.
  change (Z.to_nat 3) with 3 in E1. change (Z.to_nat 82) with 82 in E2.
  change (Z.to_nat 105) with 105 in E3.
  rewrite nth_error_firstn in E1, E2, E3. auto.
Qed.

Lemma set_delimiters_long (stream : text) :
  106 <= List.length stream ->
  exists es rs st,
    _set_delimiters default_config stream = inr (es, rs, st).
Proof.
  intros Hlen.
  assert (Hn : forall i, i < 106 -> exists c, nth_error (firstn 106 stream) i = Some c).
  { intros i Hi. destruct (nth_error (firstn 106 stream) i) eqn:E; [eauto|].
    apply nth_error_None in E. rewrite length_firstn in E. lia. }
  destruct (Hn 3) as [es Hes]; [lia|].
  destruct (Hn 82) as [rs Hrs]; [lia|].
  destruct (Hn 105) as [st Hst]; [lia|].
  exists es, rs, st. unfold _set_delimiters.
  change (isa_segment_length default_config) with 106%Z.
  change (isa_element_separator default_config) with 3%Z.
  change (isa_repetition_separator default_config) with 82%Z.
  change (isa_segment_terminator default_config) with 105%Z.
  unfold read. change (106 <? 0)%Z with false. cbn [fst].
  change (Z.to_nat 106) with 106.
  rewrite (str_index_nth _ 3 es), (str_index_nth _ 82 rs),
    (str_index_nth _ 105 st) by (try lia; assumption).
  reflexivity.
Qed.

(** X6. For an input that is not the path of an X12 file, under the default
    configuration: [__enter__] returns a reader exactly when the input begins
    with [ISA] and holds at least 106 characters; the reader then streams the
    input itself, with a buffer of 1024000 characters, and its element
    separator, repetition separator and segment terminator are the
    characters at offsets 3, 82 and 105. *)
Theorem enter_accepts_inline_text :
  forall (fs : text -> option text) (expand : text -> text) (x12_input : text),
    is_x12_file fs expand default_config x12_input = false ->
    ((exists r, __enter__ fs expand default_config x12_input = inr r)
     <-> (startswith (str "ISA") x12_input = true
          /\ 106 <= List.length x12_input))
    /\ (forall r,
          __enter__ fs expand default_config x12_input = inr r ->
          x12_stream r = x12_input
          /\ buffer_size r = 1024000%Z
          /\ nth_error x12_input 3 = Some (element_separator r)
          /\ nth_error x12_input 82 = Some (repetition_separator r)
          /\ nth_error x12_input 105 = Some (segment_terminator r)).
Proof.
  intros fs expand x12_input Hfile.
  assert (Hinv : forall r,
            __enter__ fs expand default_config x12_input = inr r ->
            is_x12_data x12_input = true /\ x12_stream r = x12_input
            /\ buffer_size r = 1024000%Z
            /\ _set_delimiters default_config x12_input
               = inr (element_separator r, repetition_separator r,
                      segment_terminator r)).
  { intros r Hr. destruct (enter_inv fs expand default_config x12_input r Hr)
      as (Ho & Hb & Hd).
    unfold open_stream in Ho. rewrite Hfile in Ho.
    destruct (is_x12_data x12_input); [|discriminate].
    inversion Ho as [Hs]. rewrite <- Hs in Hd. rewrite <- Hs. auto. }
  split; [split|].
  - intros [r Hr]. destruct (Hinv r Hr) as (Hd & _ & _ & Hdel).
    split.
    + unfold is_x12_data in Hd. destruct x12_input; [discriminate|exact Hd].
    + destruct (Nat.lt_ge_cases (List.length x12_input) 106) as [Hlt|Hge];
        [|exact Hge].
      rewrite (set_delimiters_short x12_input Hlt) in Hdel. discriminate.
  - intros [Hisa Hlen].
    destruct (set_delimiters_long x12_input Hlen) as (es & rs & st & Hdel).
    assert (Hd : is_x12_data x12_input = true).
    { unfold is_x12_data. destruct x12_input; [simpl in Hlen; lia|exact Hisa]. }
    unfold __enter__, open_stream. rewrite Hfile, Hd. unfold rbind at 1.
    rewrite Hdel.
    change (isa_segment_length default_config) with 106%Z.
    unfold read. change (106 <? 0)%Z with false. cbn [fst].
    change (Z.to_nat 106) with 106.
    destruct x12_input as [|c x]; [simpl in Hlen; lia|].
    cbn [firstn]. eexists. reflexivity.
  - intros r Hr. destruct (Hinv r Hr) as (_ & Hs & Hb & Hdel).
    apply set_delimiters_inv in Hdel. tauto.
Qed.

(** X6, at the inline text [sample_text]. *)
Lemma enter_accepts_inline_text_witness :
  ((exists r, __enter__ no_files no_expand default_config sample_text = inr r)
   <-> (startswith (str "ISA") sample_text = true
        /\ 106 <= List.length sample_text))
  /\ (forall r,
        __enter__ no_files no_expand default_config sample_text = inr r ->
        x12_stream r = sample_text
        /\ buffer_size r = 1024000%Z
        /\ nth_error sample_text 3 = Some (element_separator r)
        /\ nth_error sample_text 82 = Some (repetition_separator r)
        /\ nth_error sample_text 105 = Some (segment_terminator r)).
Proof.
  apply (enter_accepts_inline_text no_files no_expand sample_text).
  reflexivity.
Defined.

(** X7. For an input that passes the X12 file test, [__enter__] opens the
    path as it was given, not the expanded path the test looked at: when
    only the expanded path exists, it raises [FileNotFoundError]; otherwise a
    reader it returns streams the content of that file, not the input. *)
Theorem enter_opens_the_path_as_given :
  forall (fs : text -> option text) (expand : text -> text) (cfg : X12Config)
         (x12_input : text),
    is_x12_file fs expand cfg x12_input = true ->
    (fs x12_input = None ->
     __enter__ fs expand cfg x12_input = inl (FileNotFoundError x12_input))
    /\ (forall content r,
          fs x12_input = Some content ->
          __enter__ fs expand cfg x12_input = inr r ->
          x12_stream r = content).
Proof.
  intros fs expand cfg x12_input Hfile. split.
  - intros Hnone. unfold __enter__, open_stream, open_file.
    now rewrite Hfile, Hnone.
  - intros content r Hsome Hr.
    destruct (enter_inv fs expand cfg x12_input r Hr) as (Ho & _).
    unfold open_stream, open_file in Ho. rewrite Hfile, Hsome in Ho.
    now inversion Ho.
Qed.

(** A file system that holds the 270 at [/home/edi/270.x12], and the
    expansion of [~] to [/home/edi]. *)
Definition home_files : text -> option text :=
  fun path =>
    if text_eqb path (str "/home/edi/270.x12") then Some sample_270 else None.

Definition home_expand : text -> text :=
  fun path =>
    match path with
    | "~"%char :: rest => str "/home/edi" ++ rest
    | _ => path
    end.

(** X7, at the paths [~/270.x12] (found by the test, not by [open]) and
    [/home/edi/270.x12]. *)
Lemma enter_opens_the_path_as_given_witness :
  __enter__ home_files home_expand default_config (str "~/270.x12")
  = inl (FileNotFoundError (str "~/270.x12"))
  /\ (forall content r,
        home_files (str "/home/edi/270.x12") = Some content ->
        __enter__ home_files home_expand default_config (str "/home/edi/270.x12")
        = inr r ->
        x12_stream r = content).
Proof.
  split.
  - apply (proj1 (enter_opens_the_path_as_given home_files home_expand
                    default_config (str "~/270.x12") eq_refl)).
    reflexivity.
  - apply (proj2 (enter_opens_the_path_as_given home_files home_expand
                    default_config (str "/home/edi/270.x12") eq_refl)).
Defined.

(* ===================================================================== *)
(** ** What the correlator callback can do *)
(* ===================================================================== *)

Lemma callback_cases (env : Env) (msg : Msg) (m : Machine) :
  exists o m',
    nats_coverage_response_callback env msg m = (o, m')
    /\ o <> Pending
    /\ ticks m' = ticks m
    /\ turns m' = turns m
    /\ ((proc m' = proc m /\ printed m' = printed m)
        \/ (exists out,
              o = Returned tt
              /\ proc m' = set_message_received true (proc m)
              /\ printed m' = printed m ++ [out])).
Proof.
  assert (Hsame : forall e : PyError,
            exists (o : Outcome unit) m',
              (Raised e, m) = (o, m') /\ o <> Pending /\ ticks m' = ticks m
              /\ turns m' = turns m
              /\ ((proc m' = proc m /\ printed m' = printed m)
                  \/ (exists out, o = Returned tt
                        /\ proc m' = set_message_received true (proc m)
                        /\ printed m' = printed m ++ [out]))).
  { intros e. exists (Raised e), m. split; [reflexivity|].
    split; [discriminate|]. auto. }
  unfold nats_coverage_response_callback.
  remember (decode_payload env (data msg)) as r1 eqn:E1.
  destruct r1 as [e|message]; [rewrite bind_lift_inl; apply Hsame|].
  rewrite bind_lift_inr.
  remember (getpath [Key "identifier"; Idx 0; Key "value"] message) as r2 eqn:E2.
  destruct r2 as [e|id]; [rewrite bind_lift_inl; apply Hsame|].
  rewrite bind_lift_inr. unfold bind at 1, self. cbn beta iota.
  destruct (negb (py_eqb id (transaction_id (proc m)))).
  { exists (Returned tt), m. split; [reflexivity|]. split; [discriminate|]. auto. }
  remember (getpath [Key "insurance"; Idx 0; Key "inforce"] message) as r3 eqn:E3.
  destruct r3 as [e|inforce]; [rewrite bind_lift_inl; apply Hsame|].
  rewrite bind_lift_inr. cbv zeta.
  remember (open_file (fs env) (str "./samples/271.x12")) as r4 eqn:E4.
  destruct r4 as [e|content]; [rewrite bind_lift_inl; apply Hsame|].
  rewrite bind_lift_inr.
  remember (__enter__ (fs env) (expand env) (cfg env)
              (join (str ",") (readlines content))) as r5 eqn:E5.
  destruct r5 as [e|r]; [rewrite bind_lift_inl; apply Hsame|].
  rewrite bind_lift_inr.
  remember (rewrite_segments (proc m) (if truthy inforce then 1%Z else 6%Z)
              ([], @Unbound (option ascii)) (segments r)) as r6 eqn:E6.
  destruct r6 as [e|out]; [rewrite bind_lift_inl; apply Hsame|].
  rewrite bind_lift_inr.
  eexists. eexists. split; [reflexivity|]. cbn.
  split; [discriminate|]. split; [reflexivity|]. split; [reflexivity|].
  right. exists (fst out). auto.
Qed.

(** X8. Whatever message arrives, the callback never suspends, reads no
    clock and takes no turn of the event loop, and it ends in one of two
    ways: no attribute of the processor is written and no [271 result] line
    (a rewritten template) is printed; or it returned, printed exactly one
    [271 result] line, and the only attribute written is [message_received],
    set to true.  It never resets the flag.  The other lines the callback
    prints (the subject, the payload, the notice of another transaction) are
    not recorded in [printed] and are not what this is about. *)
Theorem callback_effect_is_bounded :
  forall (env : Env) (msg : Msg) (m : Machine),
    fst (nats_coverage_response_callback env msg m) <> Pending
    /\ ticks (snd (nats_coverage_response_callback env msg m)) = ticks m
    /\ turns (snd (nats_coverage_response_callback env msg m)) = turns m
    /\ ((proc (snd (nats_coverage_response_callback env msg m)) = proc m
         /\ printed (snd (nats_coverage_response_callback env msg m)) = printed m)
        \/ (exists out,
              fst (nats_coverage_response_callback env msg m) = Returned tt
              /\ proc (snd (nats_coverage_response_callback env msg m))
                 = set_message_received true (proc m)
              /\ printed (snd (nats_coverage_response_callback env msg m))
                 = printed m ++ [out])).
Proof.
  intros env msg m.
  destruct (callback_cases env msg m) as (o & m' & E & H). rewrite E. exact H.
Qed.

Lemma set_message_received_same (p : Processor) :
  message_received p = true -> set_message_received true p = p.
Proof. destruct p; simpl; intros ->; reflexivity. Qed.

(** X9. Once the flag is set, a further message, matching or not, leaves
    the processor exactly as it is. *)
Theorem callback_after_resolution :
  forall (env : Env) (msg : Msg) (m : Machine),
    message_received (proc m) = true ->
    proc (snd (nats_coverage_response_callback env msg m)) = proc m.
Proof.
  intros env msg m Hm.
  destruct (callback_cases env msg m)
    as (o & m' & E & _ & _ & _ & [[H _]|[out (_ & H & _)]]);
    rewrite E; cbn [snd]; [exact H|].
  rewrite H. now apply set_message_received_same.
Qed.

(** The machine of [live_env] after the matching response. *)
Definition resolved_machine : Machine :=
  snd (nats_coverage_response_callback live_env
         {| subject := "eligibility.EVENTS"; reply := ""; data := [Byte.x01] |}
         translated_machine).

(** X9, at a second matching response. *)
Lemma callback_after_resolution_witness :
  proc (snd (nats_coverage_response_callback live_env
               {| subject := "eligibility.EVENTS"; reply := "";
                  data := [Byte.x01] |}
               resolved_machine))
  = proc resolved_machine.
Proof.
  apply (callback_after_resolution live_env _ resolved_machine).
  vm_compute. reflexivity.
Defined.

(** X10. A response for the transaction in flight does not resolve the wait
    when the template cannot be opened: the callback raises
    [FileNotFoundError] and the machine, the flag included, is what it
    was. *)
Theorem callback_needs_the_template :
  forall (env : Env) (msg : Msg) (m : Machine) (message id inforce : PyVal),
    decode_payload env (data msg) = inr message ->
    getpath [Key "identifier"; Idx 0; Key "value"] message = inr id ->
    py_eqb id (transaction_id (proc m)) = true ->
    getpath [Key "insurance"; Idx 0; Key "inforce"] message = inr inforce ->
    fs env (str "./samples/271.x12") = None ->
    nats_coverage_response_callback env msg m
    = (Raised (FileNotFoundError (str "./samples/271.x12")), m).
Proof.
  intros env msg m message id inforce Hd Hid Heq Hin Hfs.
  unfold nats_coverage_response_callback.
  rewrite Hd, bind_lift_inr, Hid, bind_lift_inr.
  unfold bind at 1, self. cbn beta iota. rewrite Heq. cbn [negb].
  rewrite Hin, bind_lift_inr. cbv zeta.
  unfold open_file. rewrite Hfs. reflexivity.
Qed.

(** [live_env] without its files. *)
Definition env_without_files : Env :=
  {| cfg := cfg live_env; fs := no_files; expand := expand live_env;
     clock := clock live_env; analyzer := analyzer live_env;
     x12_models := x12_models live_env; http_post := http_post live_env;
     today := today live_env; tls_setup := tls_setup live_env;
     nats_connect := nats_connect live_env; inbox := inbox live_env;
     decode_payload := decode_payload live_env |}.

(** X10, at the matching response with no template on disk. *)
Lemma callback_needs_the_template_witness :
  nats_coverage_response_callback env_without_files
    {| subject := "eligibility.EVENTS"; reply := ""; data := [Byte.x01] |}
    translated_machine
  = (Raised (FileNotFoundError (str "./samples/271.x12")), translated_machine).
Proof.
  apply (callback_needs_the_template env_without_files _ translated_machine
           (coverage_response "T1" true) (PStr "T1") (PBool true));
    reflexivity.
Defined.

(* ===================================================================== *)
(** ** Invariants of the processor across calls *)
(* ===================================================================== *)

Section Invariant.

(** A property of the processor. *)
Variable I : Processor -> Prop.

(** The call [c], started on a processor with the property, ends on one that
    has it, whether it returns, raises or stays suspended. *)
Definition keeps {X} (c : M X) : Prop :=
  forall m, I (proc m) -> I (proc (snd (c m))).

(** The attribute update [g] maintains the property. *)
Definition maintains (g : Processor -> Processor) : Prop :=
  forall p, I p -> I (g p).

Lemma keeps_ret {X} (x : X) : keeps (ret x).
Proof. intros m H. exact H. Qed.

Lemma keeps_raise {X} (e : PyError) : keeps (@raise X e).
Proof. intros m H. exact H. Qed.

Lemma keeps_lift {X} (r : Res X) : keeps (lift r).
Proof. destruct r; [apply keeps_raise|apply keeps_ret]. Qed.

Lemma keeps_self : keeps self.
Proof. intros m H. exact H. Qed.

Lemma keeps_perf_counter_ms (env : Env) : keeps (perf_counter_ms env).
Proof. intros m H. exact H. Qed.

Lemma keeps_print_271 (out : text) : keeps (print_271 out).
Proof. intros m H. exact H. Qed.

Lemma keeps_bind {X Y} (c : M X) (k : X -> M Y) :
  keeps c -> (forall x, keeps (k x)) -> keeps (bind c k).
Proof.
  intros Hc Hk m Hm. unfold bind. specialize (Hc m Hm).
  destruct (c m) as [[x|e|] m1]; cbn in *; [|exact Hc|exact Hc].
  now apply Hk.
Qed.

Lemma keeps_modify (g : Processor -> Processor) : maintains g -> keeps (modify g).
Proof. intros Hg m Hm. now apply Hg. Qed.

Lemma keeps_for_each {X} (xs : list X) (body : X -> M unit) :
  (forall x, keeps (body x)) -> keeps (for_each xs body).
Proof.
  intros Hb. induction xs as [|x xs IH]; [apply keeps_ret|].
  cbn [for_each]. apply keeps_bind; [apply Hb|intros _; exact IH].
Qed.

Lemma keeps_swallow (c : M unit) : keeps c -> keeps (swallow c).
Proof.
  intros Hc m Hm. unfold swallow. specialize (Hc m Hm).
  destruct (c m) as [[x|e|] m1]; exact Hc.
Qed.

Lemma keeps_when (b : bool) (c : M unit) : keeps c -> keeps (when b c).
Proof. intros Hc. destruct b; [exact Hc|apply keeps_ret]. Qed.

Lemma keeps_try_except {X} (body : M X) (handler : PyError -> M X) :
  keeps body -> (forall ex, keeps (handler ex)) ->
  keeps (try_except body handler).
Proof.
  intros Hb Hh m Hm. unfold try_except. specialize (Hb m Hm).
  destruct (body m) as [[x|e|] m1]; cbn in *; try exact Hb.
  destruct (is_exception e); [now apply Hh|exact Hb].
Qed.

Lemma keeps_transition {X} (t : Transition) (c : M X) :
  maintains (set_state (target t)) -> keeps c -> keeps (transition t c).
Proof.
  intros Hs Hc m Hm. unfold transition.
  destruct (is_available t (state (proc m))); [|exact Hm].
  specialize (Hc m Hm). destruct (c m) as [[x|e|] m1]; cbn in *; try exact Hc.
  now apply Hs.
Qed.

Lemma keeps_async_transition {X} (t : Transition) (c : M X) :
  maintains (set_state (target t)) -> keeps c -> keeps (async_transition t c).
Proof.
  intros Hs Hc m Hm. unfold async_transition.
  destruct (is_available t (state (proc m))); [|exact Hm].
  apply Hc. cbn. now apply Hs.
Qed.

(** The callback keeps whatever setting the flag maintains. *)
Lemma keeps_callback (env : Env) (msg : Msg) :
  maintains (set_message_received true) ->
  keeps (nats_coverage_response_callback env msg).
Proof.
  intros Hf m Hm.
  destruct (callback_cases env msg m)
    as (o & m' & E & _ & _ & _ & [[H _]|[out (_ & H & _)]]);
    rewrite E; cbn [snd]; rewrite H; [exact Hm|].
  now apply Hf.
Qed.

Lemma keeps_event_loop_turn (env : Env) :
  maintains (set_message_received true) -> keeps (event_loop_turn env).
Proof.
  intros Hf m Hm. unfold event_loop_turn.
  destruct (nats_client _) as [c|]; [|exact Hm].
  destruct (_ && _); [|exact Hm].
  apply keeps_for_each; [|exact Hm].
  intros x. apply keeps_swallow, keeps_callback, Hf.
Qed.

Lemma keeps_wait_for_message (env : Env) (fuel : nat) :
  maintains (set_message_received true) -> keeps (wait_for_message env fuel).
Proof.
  intros Hf. induction fuel as [|fuel IH]; intros m Hm; cbn [wait_for_message].
  - destruct (message_received (proc m)); exact Hm.
  - destruct (message_received (proc m)); [exact Hm|].
    apply keeps_bind; [now apply keeps_event_loop_turn|intros _; exact IH|exact Hm].
Qed.

End Invariant.

(** One step of a proof that a method keeps a property: [side] proves that an
    attribute update maintains it. *)
Ltac keeps_step side :=
  first
    [ apply keeps_ret | apply keeps_raise | apply keeps_lift
    | apply keeps_self | apply keeps_perf_counter_ms
    | apply keeps_print_271
    | apply keeps_modify; side
    | apply keeps_bind; [|intros ?x]
    | apply keeps_for_each; intros ?x
    | apply keeps_when
    | apply keeps_transition; [side|]
    | apply keeps_async_transition; [side|]
    | apply keeps_event_loop_turn; side
    | apply keeps_wait_for_message; side
    | progress unfold translate_model, assign, operations_append
    | match goal with
      | |- keeps _ (if ?b then _ else _) => destruct b
      | |- keeps _ (match ?x with _ => _ end) => destruct x
      end ].

(** Every stage and every closing transition of the eligibility processor
    keeps a property that all its attribute updates maintain. *)
Ltac keeps_methods side :=
  unfold invoke, analyze, enrich, validate, translate, transmit, complete,
    cancel, fail;
  repeat keeps_step side.

(* ===================================================================== *)
(** ** Transitions, one at a time *)
(* ===================================================================== *)

(** The entry a transition's method appends to the operation log. *)
Definition stage_entry (t : Transition) : EdiOperations :=
  match t with
  | t_analyze => ANALYZE
  | t_enrich => ENRICH
  | t_validate => VALIDATE
  | t_translate => TRANSLATE
  | t_transmit => TRANSMIT
  | t_complete => COMPLETE
  | t_cancel => CANCEL
  | t_fail => FAIL
  end.

(** The transitions whose method calls no collaborator. *)
Definition needs_no_collaborator (t : Transition) : bool :=
  match t with
  | t_enrich | t_validate | t_complete | t_cancel | t_fail => true
  | _ => false
  end.

(** X11. A transition whose method calls no collaborator ([enrich],
    [validate], [complete], [cancel], [fail]) succeeds from every state it is
    legal in: it returns, the state is its target, and the operation log has
    gained exactly its entry.  [complete], [cancel] and [fail] return a
    result, [enrich] and [validate] return nothing. *)
Theorem collaborator_free_transitions_succeed :
  forall (env : Env) (t : Transition) (reason : string)
         (exception : option PyError) (m : Machine),
    needs_no_collaborator t = true ->
    is_available t (state (proc m)) = true ->
    exists o m',
      invoke env t reason exception m = (Returned o, m')
      /\ state (proc m') = target t
      /\ operations (proc m') = operations (proc m) ++ [stage_entry t]
      /\ (o = None <-> (t = t_enrich \/ t = t_validate)).
Proof.
  intros env t reason exception m Hn Ha.
  destruct t; try discriminate;
    unfold invoke, enrich, validate, complete, cancel, fail, bind, transition;
    rewrite Ha; cbn.
  - eexists. eexists. repeat split; auto.
  - eexists. eexists. repeat split; auto.
  - eexists. eexists. split; [reflexivity|]. repeat split;
      try discriminate; intros [H|H]; discriminate.
  - eexists. eexists. split; [reflexivity|]. repeat split;
      try discriminate; intros [H|H]; discriminate.
  - destruct exception; cbn; eexists; eexists; (split; [reflexivity|]);
      repeat split; try discriminate; intros [H|H]; discriminate.
Qed.

(** A processor that has failed. *)
Definition failed_machine : Machine :=
  snd (fail "boom" None (fresh_machine sample_text)).

(** X11, at [validate] on an analyzed processor. *)
Lemma collaborator_free_transitions_succeed_witness :
  exists o m',
    invoke quiet_env t_validate "" None analyzed_machine = (Returned o, m')
    /\ state (proc m') = target t_validate
    /\ operations (proc m') = operations (proc analyzed_machine) ++ [VALIDATE]
    /\ (o = None <-> (t_validate = t_enrich \/ t_validate = t_validate)).
Proof.
  apply (collaborator_free_transitions_succeed quiet_env t_validate "" None
           analyzed_machine); reflexivity.
Defined.

Lemma invoke_stage_returns_none (env : Env) (c : M unit) (m m' : Machine)
    (o : option EdiResult) :
  bind c (fun _ => ret None) m = (Returned o, m') -> o = None.
Proof.
  intros H. apply bind_returned in H. destruct H as (a & m1 & _ & H).
  inversion H. reflexivity.
Qed.

(** X12. A result a transition returns is a snapshot of the processor as the
    call leaves it, the entry just appended included: same metadata, input
    message and operation log, and each of the processor's five stage times,
    with [totalTime] equal to their sum.  Its error list is empty for
    [complete] and [cancel] and non-empty for [fail]; no other transition
    returns a result. *)
Theorem result_is_a_snapshot :
  forall (env : Env) (t : Transition) (reason : string)
         (exception : option PyError) (m m' : Machine) (r : EdiResult),
    invoke env t reason exception m = (Returned (Some r), m') ->
    metadata r = meta_data (proc m')
    /\ inputMessage r = input_message (proc m')
    /\ operations_of r = operations (proc m')
    /\ (exists mt,
          metrics_of r = Some mt
          /\ analyzeTime mt = analyzeTime (metrics (proc m'))
          /\ enrichTime mt = enrichTime (metrics (proc m'))
          /\ validateTime mt = validateTime (metrics (proc m'))
          /\ translateTime mt = translateTime (metrics (proc m'))
          /\ transmitTime mt = transmitTime (metrics (proc m'))
          /\ totalTime mt = stage_sum mt)
    /\ (((t = t_complete \/ t = t_cancel) /\ errors r = [])
        \/ (t = t_fail /\ errors r <> [])).
Proof.
  intros env t reason exception m m' r H.
  destruct t; unfold invoke in H;
    try (apply (invoke_stage_returns_none env) in H; discriminate).
  - apply bind_returned in H. destruct H as (r0 & m1 & Hc & H).
    inversion H; subst. unfold complete, transition in Hc.
    destruct (is_available _ _); [|discriminate].
    cbn in Hc. inversion Hc; subst. cbn.
    repeat split; eauto; eexists; repeat split; reflexivity.
  - apply bind_returned in H. destruct H as (r0 & m1 & Hc & H).
    inversion H; subst. unfold cancel, transition in Hc.
    destruct (is_available _ _); [|discriminate].
    cbn in Hc. inversion Hc; subst. cbn.
    repeat split; eauto; eexists; repeat split; reflexivity.
  - apply bind_returned in H. destruct H as (r0 & m1 & Hc & H).
    inversion H; subst. unfold fail, transition in Hc.
    destruct (is_available _ _); [|discriminate].
    destruct exception; cbn in Hc; inversion Hc; subst; cbn;
      (repeat split; eauto;
       [eexists; repeat split; reflexivity
       |right; split; [reflexivity|discriminate]]).
Qed.

(** X12, at [cancel] on an analyzed processor. *)
Lemma result_is_a_snapshot_witness :
  exists r m',
    invoke quiet_env t_cancel "" None analyzed_machine = (Returned (Some r), m')
    /\ operations_of r = [ANALYZE; CANCEL]
    /\ operations_of r = operations (proc m')
    /\ (exists mt,
          metrics_of r = Some mt
          /\ analyzeTime mt = analyzeTime (metrics (proc m'))
          /\ analyzeTime mt = 5%float
          /\ totalTime mt = stage_sum mt)
    /\ errors r = [].
Proof.
  eexists. eexists. split; [reflexivity|]. split; [reflexivity|].
  destruct (result_is_a_snapshot quiet_env t_cancel "" None analyzed_machine
              _ _ eq_refl) as (_ & _ & Ho & (mt & Hmt & Ha & _ & _ & _ & _ & Ht) & He).
  split; [exact Ho|]. split; [|reflexivity].
  exists mt. split; [exact Hmt|]. split; [exact Ha|]. split; [|exact Ht].
  rewrite Ha. reflexivity.
Defined.

(** X13. [analyze] on a processor in state [init]: when the analyzer
    accepts the message, the call returns with the metadata stored, the
    elapsed time between its two clock readings in [analyzeTime], [ANALYZE]
    appended and the state [analyzed]; when the analyzer raises, the call
    raises the same exception and no attribute of the processor has
    changed. *)
Theorem analyze_outcomes :
  forall (env : Env) (m : Machine),
    state (proc m) = init ->
    (forall md,
       analyzer env (input_message (proc m)) = inr md ->
       exists m',
         analyze env m = (Returned tt, m')
         /\ meta_data (proc m') = Some md
         /\ analyzeTime (metrics (proc m'))
            = (clock env (S (ticks m)) - clock env (ticks m))%float
         /\ operations (proc m') = operations (proc m) ++ [ANALYZE]
         /\ state (proc m') = analyzed)
    /\ (forall e,
          analyzer env (input_message (proc m)) = inl e ->
          exists m', analyze env m = (Raised e, m') /\ proc m' = proc m).
Proof.
  intros env m Hs. split.
  - intros md Hmd. unfold analyze, transition. rewrite Hs.
    cbn. rewrite Hmd. cbn. eexists. repeat split.
  - intros e He. unfold analyze, transition. rewrite Hs.
    cbn. rewrite He. cbn. eexists. split; reflexivity.
Qed.

(** X13, at a fresh processor: accepted by [quiet_env], rejected by
    [unanalyzable_env]. *)
Lemma analyze_outcomes_witness :
  (exists m',
     analyze quiet_env (fresh_machine sample_text) = (Returned tt, m')
     /\ meta_data (proc m') = Some sample_metadata
     /\ analyzeTime (metrics (proc m')) = 5%float
     /\ operations (proc m') = [ANALYZE]
     /\ state (proc m') = analyzed)
  /\ (exists m',
        analyze unanalyzable_env (fresh_machine sample_text)
        = (Raised (ExternalError "Unsupported message format"), m')
        /\ proc m' = proc (fresh_machine sample_text)).
Proof.
  split.
  - apply (proj1 (analyze_outcomes quiet_env (fresh_machine sample_text) eq_refl)
             sample_metadata eq_refl).
  - apply (proj2 (analyze_outcomes unanalyzable_env (fresh_machine sample_text)
                    eq_refl)
             (ExternalError "Unsupported message format") eq_refl).
Defined.

(* ===================================================================== *)
(** ** The state field and the operation log across calls *)
(* ===================================================================== *)

(** Updates other than [set_state] never touch the state field, and the only
    update of the log appends to it. *)
Ltac same_state := intros ?p ?Hp; exact Hp.

Ltac longer_log :=
  intros ?p [?sfx ?Hp]; cbn;
  first [ eexists; exact Hp
        | eexists; rewrite Hp, <- app_assoc; reflexivity ].

(** The operation log starts with [ops]. *)
Definition log_extends (ops : list EdiOperations) (p : Processor) : Prop :=
  exists suffix, operations p = ops ++ suffix.

Lemma transition_raised_state {X} (t : Transition) (c : M X) (m m' : Machine)
    (e : PyError) :
  (forall s, keeps (fun p => state p = s) c) ->
  transition t c m = (Raised e, m') -> state (proc m') = state (proc m).
Proof.
  intros Hc. unfold transition.
  destruct (is_available t (state (proc m))).
  - pose proof (Hc (state (proc m)) m eq_refl) as H.
    destruct (c m) as [[x|e'|] m1]; intros E; inversion E; subst; exact H.
  - intros E. now inversion E.
Qed.

Lemma transition_returned_state {X} (t : Transition) (c : M X) (m m' : Machine)
    (x : X) :
  transition t c m = (Returned x, m') -> state (proc m') = target t.
Proof.
  unfold transition. destruct (is_available t (state (proc m))); [|discriminate].
  destruct (c m) as [[x'|e'|] m1]; intros E; inversion E; subst; reflexivity.
Qed.

Lemma async_transition_state {X} (t : Transition) (c : M X) (m : Machine) :
  (forall s, keeps (fun p => state p = s) c) ->
  is_available t (state (proc m)) = true ->
  state (proc (snd (async_transition t c m))) = target t.
Proof.
  intros Hc Ha. unfold async_transition. rewrite Ha. now apply Hc.
Qed.

Lemma translate_state (env : Env) (m : Machine) :
  is_available t_translate (state (proc m)) = true ->
  state (proc (snd (translate env m))) = translated.
Proof.
  intros Ha. unfold translate.
  apply (async_transition_state t_translate); [|exact Ha].
  intros s; repeat keeps_step same_state.
Qed.

Lemma transmit_state (env : Env) (m : Machine) :
  is_available t_transmit (state (proc m)) = true ->
  state (proc (snd (transmit env m))) = transmitted.
Proof.
  intros Ha. unfold transmit.
  apply (async_transition_state t_transmit); [|exact Ha].
  intros s; repeat keeps_step same_state.
Qed.

(** X14. How a transition leaves the state field.  A call that returns
    leaves the target state.  A plain method that raises ([analyze],
    [enrich], [validate], [complete], [cancel], [fail]) leaves the state it
    found.  An awaited [translate] or [transmit], called in a state it is
    legal in, leaves its target state however it ends: when its body raises,
    the state has already advanced. *)
Theorem state_after_transition :
  forall (env : Env) (t : Transition) (reason : string)
         (exception : option PyError) (m : Machine),
    (forall o m',
       invoke env t reason exception m = (Returned o, m') ->
       state (proc m') = target t)
    /\ (forall e m',
          t <> t_translate -> t <> t_transmit ->
          invoke env t reason exception m = (Raised e, m') ->
          state (proc m') = state (proc m))
    /\ ((t = t_translate \/ t = t_transmit) ->
        is_available t (state (proc m)) = true ->
        state (proc (snd (invoke env t reason exception m))) = target t).
Proof.
  intros env t reason exception m. split; [|split].
  - intros o m' H. destruct t; unfold invoke in H;
      apply bind_returned in H; destruct H as (a & m1 & Hc & H);
      inversion H; subst;
      try (eapply transition_returned_state; exact Hc).
    + destruct (is_available t_translate (state (proc m))) eqn:Ha.
      * pose proof (translate_state env m Ha) as Hs. now rewrite Hc in Hs.
      * unfold translate in Hc.
        rewrite (async_transition_illegal _ _ m Ha) in Hc. discriminate.
    + destruct (is_available t_transmit (state (proc m))) eqn:Ha.
      * pose proof (transmit_state env m Ha) as Hs. now rewrite Hc in Hs.
      * unfold transmit in Hc.
        rewrite (async_transition_illegal _ _ m Ha) in Hc. discriminate.
  - intros e m' Hn1 Hn2 H.
    assert (Hb : forall (X : Type) (c : M X) (k : X -> M (option EdiResult)),
               (forall x m1, exists o, k x m1 = (Returned o, m1)) ->
               bind c k m = (Raised e, m') -> c m = (Raised e, m')).
    { intros X c k Hk. unfold bind.
      destruct (c m) as [[x|e0|] m1];
        [|intros E; now inversion E|intros E; discriminate E].
      destruct (Hk x m1) as [o ->]. intros E. discriminate E. }
    destruct t; try contradiction; unfold invoke in H;
      apply Hb in H; try (intros; eexists; reflexivity);
      (eapply transition_raised_state; [|exact H]);
      intros s; repeat keeps_step same_state.
  - intros Ht Ha.
    assert (Hb : forall (c : M unit),
               snd (bind c (fun _ => ret None (A := option EdiResult)) m)
               = snd (c m)).
    { intros c. unfold bind. destruct (c m) as [[x| |] m1]; reflexivity. }
    destruct Ht as [-> | ->]; unfold invoke; rewrite Hb.
    + now apply translate_state.
    + now apply transmit_state.
Qed.

(** X14, at a [translate] that raises on a broken model: the state is
    [translated]. *)
Lemma state_after_transition_witness :
  state (proc (snd (invoke (env_with_models [broken_model]) t_translate "" None
                      analyzed_machine)))
  = translated.
Proof.
  apply (proj2 (proj2 (state_after_transition (env_with_models [broken_model])
                         t_translate "" None analyzed_machine))).
  - left. reflexivity.
  - reflexivity.
Defined.

(** X15. The operation log is append-only: whatever transition is invoked
    and however the call ends, the log it leaves is the log it found followed
    by zero or more entries. *)
Theorem operation_log_is_append_only :
  forall (env : Env) (t : Transition) (reason : string)
         (exception : option PyError) (m : Machine),
    exists suffix,
      operations (proc (snd (invoke env t reason exception m)))
      = operations (proc m) ++ suffix.
Proof.
  intros env t reason exception m.
  assert (H : keeps (log_extends (operations (proc m)))
                (invoke env t reason exception)).
  { destruct t; keeps_methods longer_log. }
  apply H. exists []. now rewrite app_nil_r.
Qed.

(* ===================================================================== *)
(** ** [EdiProcessor.run] *)
(* ===================================================================== *)



(** The stages of [run], before it waits for the response. *)
Definition run_stages (env : Env)
    (do_enrich do_validate do_translate do_transmit : bool)
  : list (M unit) :=
  [ analyze env; when do_enrich (enrich env); when do_validate (validate env);
    when do_translate (translate env); when do_transmit (transmit env) ].



(** A sequence of steps closed by a last call. *)
Fixpoint sequence {X} (steps : list (M unit)) (last : M X) : M X :=
  match steps with
  | [] => last
  | c :: steps' => bind c (fun _ => sequence steps' last)
  end.

Lemma run_is_sequence (env : Env) (e v t x : bool) (fuel : nat) :
  run env e v t x fuel
  = try_except
      (sequence (run_stages env e v t x ++ [wait_for_message env fuel]) complete)
      (fun ex => fail "An error occurred executing the EdiProcessor workflow"
                   (Some ex)).
Proof. reflexivity. Qed.



(** A sequence whose last step is [c], seen from the steps before it. *)
Lemma sequence_snoc {X} (steps : list (M unit)) (c : M unit) (last : M X)
    (m : Machine) :
  sequence (steps ++ [c]) last m
  = match sequence steps (ret tt) m with
    | (Returned _, m1) => bind c (fun _ => last) m1
    | (Raised e, m1) => (Raised e, m1)
    | (Pending, m1) => (Pending, m1)
    end.
Proof.
  revert m. induction steps as [|c0 steps IH]; intros m; [reflexivity|].
  cbn [app sequence].
  assert (E : forall (Y : Type) (k : unit -> M Y),
            bind c0 k m
            = match c0 m with
              | (Returned a, m') => k a m'
              | (Raised e, m') => (Raised e, m')
              | (Pending, m') => (Pending, m')
              end) by reflexivity.
  rewrite !E. destruct (c0 m) as [[u|e|] m1]; [apply IH|reflexivity|reflexivity].
Qed.

Lemma keeps_sequence (I : Processor -> Prop) {X} (steps : list (M unit))
    (last : M X) :
  Forall (keeps I) steps -> keeps I last -> keeps I (sequence steps last).
Proof.
  intros Hs Hl. induction Hs as [|c steps Hc _ IH]; [exact Hl|].
  cbn [sequence]. apply keeps_bind; [exact Hc|intros _; exact IH].
Qed.




Lemma fail_result (reason : string) (ex : PyError) (m m' : Machine)
    (r : EdiResult) :
  fail reason (Some ex) m = (Returned r, m') ->
  errors r = [PDict [("msg"%string, PStr reason)];
              PDict [("msg"%string, PStr (exc_str ex))]]
  /\ state (proc m') = failed
  /\ operations_of r = operations (proc m) ++ [FAIL].
Proof.
  unfold fail, transition.
  destruct (is_available _ _); [|discriminate].
  cbn. intros H. inversion H. repeat split.
Qed.



(** An environment in which the POST of [transmit] is cancelled. *)
Definition env_with_cancelled_post : Env :=
  {| cfg := cfg live_env; fs := fs live_env; expand := expand live_env;
     clock := clock live_env; analyzer := analyzer live_env;
     x12_models := x12_models live_env;
     http_post := fun _ => inl (CancelledError "");
     today := today live_env; tls_setup := tls_setup live_env;
     nats_connect := nats_connect live_env; inbox := inbox live_env;
     decode_payload := decode_payload live_env |}.

(** A cancellation is not caught: it leaves [run] as it is, and the
    workflow is not marked failed. *)
Example run_lets_a_cancellation_through :
  let r := run env_with_cancelled_post true true true true 3
             (fresh_machine sample_270) in
  fst r = Raised (CancelledError "")
  /\ state (proc (snd r)) = transmitted.
Proof. split; vm_compute; reflexivity. Qed.

(** X17. [run] on a processor whose workflow has ended (a second [run], for
    one) raises: [analyze] is rejected, and so is the [fail] of the handler,
    whose [InvalidTransitionError] escapes.  The machine is untouched. *)
Theorem run_raises_once_ended :
  forall (env : Env) (do_enrich do_validate do_translate do_transmit : bool)
         (fuel : nat) (m : Machine),
    is_terminal (state (proc m)) = true ->
    run env do_enrich do_validate do_translate do_transmit fuel m
    = (Raised (InvalidTransitionError t_fail (state (proc m))), m).
Proof.
  intros env e v t x fuel m Hm.
  unfold run, try_except, bind, analyze.
  rewrite (transition_illegal t_analyze _ m (terminal_not_available _ _ Hm)).
  cbn [is_exception]. unfold fail.
  now rewrite (transition_illegal t_fail _ m (terminal_not_available _ _ Hm)).
Qed.

(** X17, at a processor that has failed. *)
Lemma run_raises_once_ended_witness :
  run quiet_env true true true true 3 failed_machine
  = (Raised (InvalidTransitionError t_fail failed), failed_machine).
Proof.
  apply (run_raises_once_ended quiet_env true true true true 3 failed_machine).
  reflexivity.
Defined.



(** No client was created and the flag is not set. *)
Definition unsubscribed (p : Processor) : Prop :=
  nats_client p = None /\ message_received p = false.

Ltac still_unsubscribed := intros ?p ?Hp; exact Hp.

Lemma event_loop_turn_unsubscribed (env : Env) :
  keeps unsubscribed (event_loop_turn env).
Proof.
  intros m [Hc Hf]. unfold event_loop_turn. cbn. rewrite Hc. now split.
Qed.

Lemma wait_unsubscribed (env : Env) (fuel : nat) (m : Machine) :
  unsubscribed (proc m) ->
  fst (wait_for_message env fuel m) = Pending
  /\ unsubscribed (proc (snd (wait_for_message env fuel m))).
Proof.
  revert m. induction fuel as [|fuel IH]; intros m Hm;
    pose proof Hm as [Hc Hf]; cbn [wait_for_message]; rewrite Hf.
  - now split.
  - unfold bind. pose proof (event_loop_turn_unsubscribed env m Hm) as H1.
    assert (Hr : fst (event_loop_turn env m) = Returned tt).
    { unfold event_loop_turn. cbn. now rewrite Hc. }
    destruct (event_loop_turn env m) as [o m1]. cbn in Hr, H1. subst o.
    exact (IH m1 H1).
Qed.

Lemma run_stages_unsubscribed (env : Env) (e v t x : bool) :
  Forall (keeps unsubscribed) (run_stages env e v t x).
Proof.
  unfold run_stages, analyze, enrich, validate, translate, transmit.
  repeat apply Forall_cons; try apply Forall_nil;
    repeat keeps_step still_unsubscribed;
    try apply event_loop_turn_unsubscribed.
Qed.

(** On a processor without a subscriber, the sequence of [run] up to the
    wait either stops in a stage, or is still waiting: it does not reach
    [complete]. *)
Lemma run_body_unsubscribed (env : Env) (e v t x : bool) (fuel : nat)
    (m : Machine) :
  unsubscribed (proc m) ->
  sequence (run_stages env e v t x ++ [wait_for_message env fuel]) complete m
  = match sequence (run_stages env e v t x) (ret tt) m with
    | (Returned _, m1) => (Pending, snd (wait_for_message env fuel m1))
    | (Raised ex, m1) => (Raised ex, m1)
    | (Pending, m1) => (Pending, m1)
    end.
Proof.
  intros Hm. rewrite sequence_snoc.
  pose proof (keeps_sequence unsubscribed _ (ret tt)
                (run_stages_unsubscribed env e v t x)
                (keeps_ret unsubscribed tt) m Hm) as H1.
  destruct (sequence (run_stages env e v t x) (ret tt) m) as [[u|ex|] m1];
    try reflexivity.
  cbn in H1. destruct (wait_unsubscribed env fuel m1 H1) as [Hp _].
  unfold bind. destruct (wait_for_message env fuel m1) as [o m2].
  cbn in Hp. now subst o.
Qed.

(** X19. [run] does not start the subscriber.  On a processor for which no
    client was created and whose flag is not set: when the stages switched
    on all return, [run] is still waiting after any number of sleeps; and a
    result it returns is never the completed one, it is the failure result
    for a stage that raised. *)
Theorem run_waits_without_subscriber :
  forall (env : Env) (do_enrich do_validate do_translate do_transmit : bool)
         (m : Machine),
    nats_client (proc m) = None ->
    message_received (proc m) = false ->
    (fst (sequence
            (run_stages env do_enrich do_validate do_translate do_transmit)
            (ret tt) m) = Returned tt ->
     forall fuel,
       fst (run env do_enrich do_validate do_translate do_transmit fuel m)
       = Pending)
    /\ (forall fuel r m',
          run env do_enrich do_validate do_translate do_transmit fuel m
          = (Returned r, m') ->
          state (proc m') = failed /\ errors r <> []).
Proof.
  intros env e v t x m Hc Hf. split.
  - intros Hs fuel. rewrite run_is_sequence. unfold try_except.
    rewrite (run_body_unsubscribed env e v t x fuel m (conj Hc Hf)).
    destruct (sequence (run_stages env e v t x) (ret tt) m) as [o m1].
    cbn in Hs. subst o. reflexivity.
  - intros fuel r m' H. rewrite run_is_sequence in H. unfold try_except in H.
    rewrite (run_body_unsubscribed env e v t x fuel m (conj Hc Hf)) in H.
    destruct (sequence (run_stages env e v t x) (ret tt) m) as [[u|ex|] m1];
      [discriminate| |discriminate].
    destruct (is_exception ex); [|discriminate].
    apply fail_result in H. destruct H as (He & Hs & _).
    split; [exact Hs|]. rewrite He. discriminate.
Qed.

(** X19, at a run of [live_env], whose stages all return, on a fresh
    processor: still waiting after fifty sleeps. *)
Lemma run_waits_without_subscriber_witness :
  fst (run live_env true true true true 50 (fresh_machine sample_270)) = Pending.
Proof.
  apply (proj1 (run_waits_without_subscriber live_env true true true true
                  (fresh_machine sample_270) eq_refl eq_refl)).
  vm_compute. reflexivity.
Defined.

(* ===================================================================== *)
(** ** [transmit] *)
(* ===================================================================== *)

Lemma swallow_callback_returns (env : Env) (msg : Msg) (m : Machine) :
  fst (swallow (nats_coverage_response_callback env msg) m) = Returned tt.
Proof.
  unfold swallow.
  destruct (callback_cases env msg m) as (o & m' & E & Hp & _). rewrite E.
  destruct o as [[]|e|]; [reflexivity|reflexivity|now contradiction Hp].
Qed.

Lemma for_each_returns {X} (xs : list X) (body : X -> M unit) :
  (forall x m, fst (body x m) = Returned tt) ->
  forall m, fst (for_each xs body m) = Returned tt.
Proof.
  intros Hb. induction xs as [|x xs IH]; intros m; [reflexivity|].
  cbn [for_each]. unfold bind. specialize (Hb x m).
  destruct (body x m) as [o m1]. cbn in Hb. subst o. apply IH.
Qed.

(** A turn of the event loop always gives control back: what the callback
    raises stays inside the client. *)
Lemma event_loop_turn_returns (env : Env) (m : Machine) :
  fst (event_loop_turn env m) = Returned tt.
Proof.
  unfold event_loop_turn.
  destruct (nats_client _) as [c|]; [|reflexivity].
  destruct (_ && _); [|reflexivity].
  apply for_each_returns. intros msg m0. apply swallow_callback_returns.
Qed.

(** The attributes [transmit] reads or writes, as the POST finds them. *)
Definition at_the_post (m : Machine) (p : Processor) : Prop :=
  state p = transmitted
  /\ input_message p = input_message (proc m)
  /\ operations p = operations (proc m)
  /\ transmit_data p = transmit_data (proc m)
  /\ transmit_result p = transmit_result (proc m)
  /\ transmit_status_code p = transmit_status_code (proc m).

Lemma transmit_spec (env : Env) (m : Machine) :
  is_available t_transmit (state (proc m)) = true ->
  exists m1,
    at_the_post m (proc m1)
    /\ match http_post env (transmit_data (proc m)) with
       | inl e => transmit env m = (Raised e, m1)
       | inr result =>
           exists m',
             transmit env m = (Returned tt, m')
             /\ state (proc m') = state (proc m1)
             /\ input_message (proc m') = input_message (proc m1)
             /\ operations (proc m') = operations (proc m1) ++ [TRANSMIT]
             /\ transmit_result (proc m') = Some (fst result)
             /\ transmit_status_code (proc m') = Some (snd result)
       end.
Proof.
  intros Ha. unfold transmit, async_transition. rewrite Ha.
  cbv beta iota zeta delta [bind perf_counter_ms self].
  match goal with
  | |- context [event_loop_turn env ?m0] =>
      pose proof (event_loop_turn_returns env m0) as Hr;
      assert (Hk : at_the_post m (proc (snd (event_loop_turn env m0))));
      [ apply (keeps_event_loop_turn (at_the_post m) env);
        [intros p Hp; exact Hp|cbn; repeat split]
      | destruct (event_loop_turn env m0) as [o m1] ]
  end.
  cbn in Hr, Hk. subst o. exists m1. split; [exact Hk|]. cbv beta iota.
  repeat match goal with
         | |- context [http_post env ?d] =>
             lazymatch d with
             | transmit_data (proc m) => fail
             | _ => change d with (transmit_data (proc m))
             end
         end.
  destruct (http_post env (transmit_data (proc m))) as [e|result];
    [reflexivity|].
  eexists. split; [reflexivity|]. cbn. repeat split.
Qed.

(** X20. [transmit], called in a state it is legal in, posts the request the
    processor holds.  When the POST raises, [transmit] raises the same
    exception: the state is already [transmitted], and the log, the result
    text and the status code are what they were.  When the POST answers,
    [transmit] returns whatever the status code: it stores the text and the
    code and appends [TRANSMIT]. *)
Theorem transmit_outcomes :
  forall (env : Env) (m : Machine),
    is_available t_transmit (state (proc m)) = true ->
    (forall e,
       http_post env (transmit_data (proc m)) = inl e ->
       exists m',
         transmit env m = (Raised e, m')
         /\ state (proc m') = transmitted
         /\ operations (proc m') = operations (proc m)
         /\ transmit_result (proc m') = transmit_result (proc m)
         /\ transmit_status_code (proc m') = transmit_status_code (proc m))
    /\ (forall body code,
          http_post env (transmit_data (proc m)) = inr (body, code) ->
          exists m',
            transmit env m = (Returned tt, m')
            /\ state (proc m') = transmitted
            /\ operations (proc m') = operations (proc m) ++ [TRANSMIT]
            /\ transmit_result (proc m') = Some body
            /\ transmit_status_code (proc m') = Some code).
Proof.
  intros env m Ha.
  destruct (transmit_spec env m Ha) as (m1 & (Hs & _ & Ho & _ & Hr & Hc) & E).
  split.
  - intros e He. rewrite He in E. exists m1. auto.
  - intros body code He. rewrite He in E.
    destruct E as (m' & E & Hs' & _ & Ho' & Hr' & Hc'). exists m'.
    rewrite Hs', Ho', Ho. auto.
Qed.

(** An environment whose server answers every POST with a status 500. *)
Definition env_with_failing_server : Env :=
  {| cfg := cfg live_env; fs := fs live_env; expand := expand live_env;
     clock := clock live_env; analyzer := analyzer live_env;
     x12_models := x12_models live_env;
     http_post := fun _ => inr (str "Internal Server Error", 500%Z);
     today := today live_env; tls_setup := tls_setup live_env;
     nats_connect := nats_connect live_env; inbox := inbox live_env;
     decode_payload := decode_payload live_env |}.

(** X20, at a POST answered with status 500 after [translate]. *)
Lemma transmit_outcomes_witness :
  exists m',
    transmit env_with_failing_server translated_machine = (Returned tt, m')
    /\ state (proc m') = transmitted
    /\ operations (proc m') = operations (proc translated_machine) ++ [TRANSMIT]
    /\ transmit_result (proc m') = Some (str "Internal Server Error")
    /\ transmit_status_code (proc m') = Some 500%Z.
Proof.
  apply (transmit_outcomes env_with_failing_server translated_machine);
    reflexivity.
Defined.

(* ===================================================================== *)
(** ** What [translate] extracts *)
(* ===================================================================== *)

(** The attribute each fixed path of [translate] is stored in. *)
Definition identity_fields : list (list Sub * (Processor -> PyVal)) :=
  [ (subscriber_segment ++ [Key "name_last_or_organization_name"], subscriber_last);
    (subscriber_segment ++ [Key "name_first"], subscriber_first);
    (subscriber_segment ++ [Key "identification_code"], subscriber_id);
    (trn_segment ++ [Key "originating_company_identifier"], transaction_id);
    (insurer_segment ++ [Key "name_last_or_organization_name"], insurer_name);
    (insurer_segment ++ [Key "identification_code"], insurer_id);
    (provider_segment ++ [Key "name_last_or_organization_name"], provider_name);
    (provider_segment ++ [Key "identification_code"], provider_id) ].

(** The processor holds the values of [model] at the fixed paths. *)
Definition holds_fields_of (model : PyVal) (p : Processor) : Prop :=
  Forall (fun entry => getpath (fst entry) model = inr (snd entry p))
         identity_fields.

Lemma getpath_key_inv (p : list Sub) (k : string) (model v : PyVal) :
  getpath (p ++ [Key k]) model = inr v ->
  exists segment,
    getpath p model = inr segment /\ getitem segment (Key k) = inr v.
Proof.
  rewrite getpath_app. destruct (getpath p model) as [e|segment]; cbn;
    [discriminate|].
  destruct (getitem segment (Key k)) as [e|x] eqn:E; cbn; [discriminate|].
  intros H. inversion H; subst. eauto.
Qed.

Lemma create_request_ext (env : Env) (p q : Processor) :
  subscriber_last p = subscriber_last q ->
  subscriber_first p = subscriber_first q ->
  subscriber_id p = subscriber_id q ->
  insurer_name p = insurer_name q ->
  insurer_id p = insurer_id q ->
  transaction_id p = transaction_id q ->
  _create_request env p = _create_request env q.
Proof.
  intros H1 H2 H3 H4 H5 H6. unfold _create_request.
  now rewrite H1, H2, H3, H4, H5, H6.
Qed.

Lemma translate_model_returns (env : Env) (start : float) (model : PyVal)
    (m : Machine) :
  paths_present model ->
  exists m',
    translate_model env start model m = (Returned tt, m')
    /\ holds_fields_of model (proc m')
    /\ transmit_data (proc m') = _create_request env (proc m').
Proof.
  intros Hp. unfold paths_present, eligibility_paths in Hp.
  repeat match type of Hp with
         | Forall _ (_ :: _) =>
             let H := fresh "H" in
             apply Forall_cons_iff in Hp; destruct Hp as [H Hp];
             destruct H as [?v H]; apply getpath_key_inv in H;
             destruct H as (?segment & ?Hs & ?Hv)
         end.
  clear Hp.
  repeat match goal with
         | H1 : getpath ?p model = inr ?a, H2 : getpath ?p model = inr ?b |- _ =>
             assert (b = a) by congruence; subst b; clear H2
         end.
  unfold translate_model.
  repeat match goal with
         | H : getpath ?p model = inr _ |- context [lift (getpath ?p model)] =>
             rewrite H, bind_lift_inr
         | H : getitem ?s (Key ?k) = inr _
           |- context [bind (assign ?set ?s ?k) _ _] =>
             rewrite (bind_assign_inr _ _ _ _ _ _ H)
         end.
  eexists. split; [reflexivity|]. split.
  - unfold holds_fields_of, identity_fields.
    repeat apply Forall_cons; try apply Forall_nil; cbn [fst snd];
      (eapply getpath_key; [eassumption|]); assumption.
  - cbn [proc snd transmit_data with_proc set_operations set_metrics
         set_transmit_data].
    apply create_request_ext; reflexivity.
Qed.

Lemma for_each_app {X} (xs ys : list X) (body : X -> M unit) (m : Machine) :
  for_each (xs ++ ys) body m
  = bind (for_each xs body) (fun _ => for_each ys body) m.
Proof.
  revert m. induction xs as [|x xs IH]; intros m; [reflexivity|].
  cbn [app for_each]. unfold bind.
  destruct (body x m) as [[u|e|] m1]; [|reflexivity|reflexivity].
  rewrite IH. reflexivity.
Qed.

Lemma translate_loop_returns (env : Env) (start : float) (models : list PyVal) :
  Forall paths_present models ->
  forall m, exists m',
    for_each models (translate_model env start) m = (Returned tt, m').
Proof.
  induction 1 as [|model models Hp _ IH]; intros m; [now exists m|].
  cbn [for_each]. unfold bind.
  destruct (translate_model_returns env start model m Hp) as (m1 & -> & _).
  apply IH.
Qed.

(** X21. When the input parses into one or more models that all hold the
    fixed paths, [translate], called in a state it is legal in, returns; the
    identity fields of the processor are then the values of the last model,
    those of earlier models being overwritten, and the request it holds is
    the one [_create_request] builds from these fields. *)
Theorem translate_keeps_the_last_model :
  forall (env : Env) (m : Machine) (models : list PyVal) (model : PyVal),
    is_available t_translate (state (proc m)) = true ->
    x12_models env (input_message (proc m)) = inr (models ++ [model]) ->
    Forall paths_present (models ++ [model]) ->
    exists m',
      translate env m = (Returned tt, m')
      /\ holds_fields_of model (proc m')
      /\ transmit_data (proc m') = _create_request env (proc m').
Proof.
  intros env m models model Ha Hm Hall.
  rewrite (translate_unfold env m _ Ha Hm), for_each_app.
  apply Forall_app in Hall. destruct Hall as [Hinit Hlast].
  apply Forall_cons_iff in Hlast. destruct Hlast as [Hlast _].
  unfold bind at 1.
  destruct (translate_loop_returns env (clock env (ticks m)) models Hinit
              (translate_entry m)) as (m1 & ->).
  cbn [for_each]. unfold bind.
  destruct (translate_model_returns env (clock env (ticks m)) model m1 Hlast)
    as (m' & -> & Hf & Hr).
  exists m'. auto.
Qed.

Lemma sample_model_paths (trn : string) : paths_present (sample_model trn).
Proof.
  unfold paths_present, eligibility_paths.
  repeat apply Forall_cons; try apply Forall_nil; eexists; reflexivity.
Qed.

(** X21, at an input that parses into the transaction sets [T1] and [T2]. *)
Lemma translate_keeps_the_last_model_witness :
  exists m',
    translate (env_with_models [sample_model "T1"; sample_model "T2"])
      analyzed_machine
    = (Returned tt, m')
    /\ holds_fields_of (sample_model "T2") (proc m')
    /\ transmit_data (proc m')
       = _create_request (env_with_models [sample_model "T1"; sample_model "T2"])
           (proc m').
Proof.
  apply (translate_keeps_the_last_model
           (env_with_models [sample_model "T1"; sample_model "T2"])
           analyzed_machine [sample_model "T1"] (sample_model "T2")).
  - reflexivity.
  - reflexivity.
  - apply Forall_cons; [apply sample_model_paths|].
    apply Forall_cons; [apply sample_model_paths|apply Forall_nil].
Defined.

(* ===================================================================== *)
(** ** The result of [process_edi] *)
(* ===================================================================== *)

(** The processor holds the message [msg] and the log [ops]. *)
Definition logged (msg : text) (ops : list EdiOperations) (p : Processor)
  : Prop :=
  input_message p = msg /\ operations p = ops.

Ltac untouched := intros ?p ?Hp; exact Hp.

Lemma keeps_at (I : Processor -> Prop) {X} (c : M X) (m m' : Machine)
    (o : Outcome X) :
  keeps I c -> I (proc m) -> c m = (o, m') -> I (proc m').
Proof. intros Hc Hm E. specialize (Hc m Hm). now rewrite E in Hc. Qed.

Lemma transition_returned {X} (t : Transition) (c : M X) (m m' : Machine)
    (x : X) :
  transition t c m = (Returned x, m') ->
  exists m1, c m = (Returned x, m1) /\ m' = with_proc (set_state (target t)) m1.
Proof.
  unfold transition. destruct (is_available t (state (proc m))); [|discriminate].
  destruct (c m) as [[x'|e|] m1]; intros E; inversion E; subst. eauto.
Qed.

Lemma async_transition_returned {X} (t : Transition) (c : M X) (m m' : Machine)
    (x : X) :
  async_transition t c m = (Returned x, m') ->
  is_available t (state (proc m)) = true.
Proof.
  unfold async_transition. now destruct (is_available t (state (proc m))).
Qed.

Lemma analyze_logged (env : Env) (msg : text) (ops : list EdiOperations)
    (m m' : Machine) :
  logged msg ops (proc m) -> analyze env m = (Returned tt, m') ->
  logged msg (ops ++ [ANALYZE]) (proc m').
Proof.
  intros [Hm Ho] H. apply transition_returned in H. destruct H as (m1 & H & ->).
  revert H. cbv beta iota zeta delta [bind perf_counter_ms self].
  destruct (lift (analyzer env _) _) as [[md|e|] m2] eqn:E; try discriminate.
  unfold lift in E. destruct (analyzer env _); inversion E; subst.
  cbn. intros H. inversion H; subst. split; cbn; congruence.
Qed.

Lemma enrich_logged (env : Env) (msg : text) (ops : list EdiOperations)
    (b : bool) (m m' : Machine) :
  logged msg ops (proc m) -> when b (enrich env) m = (Returned tt, m') ->
  logged msg (ops ++ (if b then [ENRICH] else [])) (proc m').
Proof.
  intros [Hm Ho] H. destruct b.
  - apply transition_returned in H. destruct H as (m1 & H & ->).
    cbn in H. inversion H; subst. split; cbn; congruence.
  - inversion H; subst. rewrite app_nil_r. now split.
Qed.

Lemma validate_logged (env : Env) (msg : text) (ops : list EdiOperations)
    (b : bool) (m m' : Machine) :
  logged msg ops (proc m) -> when b (validate env) m = (Returned tt, m') ->
  logged msg (ops ++ (if b then [VALIDATE] else [])) (proc m').
Proof.
  intros [Hm Ho] H. destruct b.
  - apply transition_returned in H. destruct H as (m1 & H & ->).
    cbn in H. inversion H; subst. split; cbn; congruence.
  - inversion H; subst. rewrite app_nil_r. now split.
Qed.

Lemma translate_logged (env : Env) (msg : text) (ops : list EdiOperations)
    (b : bool) (models : list PyVal) (m m' : Machine) :
  (b = true -> x12_models env msg = inr models) ->
  logged msg ops (proc m) -> when b (translate env) m = (Returned tt, m') ->
  logged msg (ops ++ (if b then repeat TRANSLATE (List.length models) else []))
         (proc m').
Proof.
  intros Hx [Hm Ho] H. destruct b.
  - cbn [when] in H. split.
    + apply (keeps_at (fun p => input_message p = msg) (translate env) m m'
               (Returned tt)); [|exact Hm|exact H].
      unfold translate. repeat keeps_step untouched.
    + pose proof (async_transition_returned _ _ _ _ _ H) as Ha.
      rewrite <- Ho. apply (translate_appends_per_model env m m' models Ha);
        [|exact H].
      rewrite Hm. now apply Hx.
  - inversion H; subst. rewrite app_nil_r. now split.
Qed.

Lemma transmit_logged (env : Env) (msg : text) (ops : list EdiOperations)
    (b : bool) (m m' : Machine) :
  logged msg ops (proc m) -> when b (transmit env) m = (Returned tt, m') ->
  logged msg (ops ++ (if b then [TRANSMIT] else [])) (proc m').
Proof.
  intros [Hm Ho] H. destruct b.
  - cbn [when] in H.
    pose proof (async_transition_returned _ _ _ _ _ H) as Ha.
    destruct (transmit_spec env m Ha) as (m1 & (_ & Hi & Hl & _) & E).
    destruct (http_post env _) as [e|result]; [congruence|].
    destruct E as (m2 & E & _ & Hi' & Hl' & _).
    assert (m2 = m') by congruence. subst m2. split; congruence.
  - inversion H; subst. rewrite app_nil_r. now split.
Qed.

Lemma start_logged (env : Env) (msg : text) (ops : list EdiOperations) :
  keeps (logged msg ops) (start_nats_coverage_eligibility_subscriber env).
Proof.
  unfold start_nats_coverage_eligibility_subscriber.
  repeat keeps_step untouched.
Qed.

Lemma stop_logged (msg : text) (ops : list EdiOperations) :
  keeps (logged msg ops) stop_nats_coverage_eligibility_subscriber.
Proof.
  unfold stop_nats_coverage_eligibility_subscriber.
  repeat keeps_step untouched.
Qed.

Lemma wait_logged (env : Env) (fuel : nat) (msg : text)
    (ops : list EdiOperations) :
  keeps (logged msg ops) (wait_for_message env fuel).
Proof. repeat keeps_step untouched. Qed.

Lemma complete_logged (msg : text) (ops : list EdiOperations) (m m' : Machine)
    (r : EdiResult) :
  logged msg ops (proc m) -> complete m = (Returned r, m') ->
  inputMessage r = msg /\ operations_of r = ops ++ [COMPLETE].
Proof.
  intros [Hm Ho] H. apply transition_returned in H. destruct H as (m1 & H & ->).
  cbn in H. inversion H; subst. split; cbn; congruence.
Qed.

(** X22. A result [process_edi] returns holds, as its input message, the
    lines of the file joined with commas, and, as its log, [ANALYZE], then
    the entry of every stage switched on, in the order of the stages and
    with one [TRANSLATE] for each model the message parses into, then
    [COMPLETE]. *)
Theorem process_edi_result_log :
  forall (env : Env) (edi : text) (kwargs : Kwargs) (fuel : nat)
         (m m' : Machine) (r : EdiResult) (content : text)
         (models : list PyVal),
    fs env edi = Some content ->
    (kw_translate kwargs = true ->
     x12_models env (join (str ",") (readlines content)) = inr models) ->
    process_edi env edi kwargs fuel m = (Returned r, m') ->
    inputMessage r = join (str ",") (readlines content)
    /\ operations_of r
       = [ANALYZE]
         ++ (if kw_enrich kwargs then [ENRICH] else [])
         ++ (if kw_validate kwargs then [VALIDATE] else [])
         ++ (if kw_translate kwargs
             then repeat TRANSLATE (List.length models) else [])
         ++ (if kw_transmit kwargs then [TRANSMIT] else [])
         ++ [COMPLETE].
Proof.
  intros env edi kwargs fuel m m' r content models Hfs Hx H.
  unfold process_edi, open_file in H. rewrite Hfs in H.
  rewrite bind_lift_inr in H. cbv zeta in H.
  set (msg := join (str ",") (readlines content)) in *.
  apply bind_returned in H. destruct H as (u0 & m0 & H0 & H).
  assert (L0 : logged msg [] (proc m0)).
  { inversion H0; subst. now split. }
  apply bind_returned in H. destruct H as (u1 & m1 & H1 & H).
  pose proof (keeps_at _ _ _ _ _ (start_logged env msg []) L0 H1) as L1.
  apply bind_returned in H. destruct H as ([] & m2 & H2 & H).
  pose proof (analyze_logged env _ _ _ _ L1 H2) as L2.
  apply bind_returned in H. destruct H as ([] & m3 & H3 & H).
  pose proof (enrich_logged env _ _ _ _ _ L2 H3) as L3.
  apply bind_returned in H. destruct H as ([] & m4 & H4 & H).
  pose proof (validate_logged env _ _ _ _ _ L3 H4) as L4.
  apply bind_returned in H. destruct H as ([] & m5 & H5 & H).
  pose proof (translate_logged env _ _ _ models _ _ Hx L4 H5) as L5.
  apply bind_returned in H. destruct H as ([] & m6 & H6 & H).
  pose proof (transmit_logged env _ _ _ _ _ L5 H6) as L6.
  apply bind_returned in H. destruct H as (u7 & m7 & H7 & H).
  pose proof (keeps_at _ _ _ _ _ (wait_logged env fuel msg _) L6 H7) as L7.
  apply bind_returned in H. destruct H as (u8 & m8 & H8 & H).
  pose proof (keeps_at _ _ _ _ _ (stop_logged msg _) L7 H8) as L8.
  destruct (complete_logged _ _ _ _ _ L8 H) as [Hi Ho].
  split; [exact Hi|]. rewrite Ho, <- !app_assoc. reflexivity.
Qed.

(** X22, at the run of [live_env] that returns. *)
Lemma process_edi_result_log_witness :
  inputMessage live_result = join (str ",") (readlines sample_270)
  /\ operations_of live_result
     = [ANALYZE; ENRICH; VALIDATE; TRANSLATE; TRANSMIT; COMPLETE].
Proof.
  assert (H : process_edi live_env (str "edi.x12") all_stages 2 (fresh_machine [])
              = (Returned live_result, snd live_run))
    by (vm_compute; reflexivity).
  exact (process_edi_result_log live_env (str "edi.x12") all_stages 2
           (fresh_machine []) (snd live_run) live_result sample_270
           [sample_model "T1"] eq_refl (fun _ => eq_refl) H).
Defined.

(* ===================================================================== *)
(** ** The rewriting of the 271 template *)
(* ===================================================================== *)

(** A segment the loop of the callback writes nothing into: it is no [ISA],
    [NM1], [TRN] or [EB] segment. *)
Definition carries_no_field (segment : text) : bool :=
  negb (text_eqb (slice 0 3 segment) (str "ISA"))
  && negb (text_eqb (slice 0 3 segment) (str "NM1"))
  && negb (text_eqb (slice 0 3 segment) (str "TRN"))
  && negb (text_eqb (slice 0 2 segment) (str "EB")).

Lemma text_eqb_eq (a b : text) : text_eqb a b = true -> a = b.
Proof.
  revert b. induction a as [|x a IH]; intros [|y b]; cbn; try discriminate;
    [reflexivity|].
  intros H. apply andb_prop in H. destruct H as [Hx Hr].
  apply Ascii.eqb_eq in Hx. subst y. f_equal. now apply IH.
Qed.

Lemma all_strings_map_some (els : list text) :
  all_strings (map Some els) = inr els.
Proof.
  induction els as [|e els IH]; [reflexivity|]. cbn. now rewrite IH.
Qed.

Lemma rewrite_plain_segment (p : Processor) (eligibility : Z) (out : text)
    (d : ascii) (segment : text) :
  carries_no_field segment = true ->
  rewrite_segment p eligibility (out, Bound (Some d)) segment
  = inr ((out ++ str "~") ++ rstrip d segment, Bound (Some d)).
Proof.
  unfold carries_no_field. intros H.
  repeat (apply andb_prop in H; destruct H as [H ?H]).
  repeat match goal with
         | H : negb _ = true |- _ => apply negb_true_iff in H
         end.
  unfold rewrite_segment, nm1_with, elements.
  repeat match goal with
         | H : text_eqb _ _ = false |- _ => rewrite H
         end.
  cbn [rbind]. rewrite all_strings_map_some. cbn [rbind].
  now rewrite join_split.
Qed.

Lemma rewrite_header_segment (p : Processor) (eligibility : Z) (out : text)
    (delimiter : Local (option ascii)) (d : ascii) (segment : text) :
  text_eqb (slice 0 3 segment) (str "ISA") = true ->
  nth_error segment 3 = Some d ->
  rewrite_segment p eligibility (out, delimiter) segment
  = inr (out ++ rstrip d segment, Bound (Some d)).
Proof.
  intros H Hd. pose proof (text_eqb_eq _ _ H) as Hs.
  assert (H2 : slice 0 2 segment = str "IS").
  { destruct segment as [|a [|b [|c t]]]; try discriminate.
    inversion Hs. reflexivity. }
  unfold rewrite_segment, nm1_with, elements. rewrite Hd, Hs, H2.
  change (text_eqb (str "ISA") (str "ISA")) with true.
  change (text_eqb (str "ISA") (str "NM1")) with false.
  change (text_eqb (str "ISA") (str "TRN")) with false.
  change (text_eqb (str "IS") (str "EB")) with false.
  cbn [rbind]. rewrite all_strings_map_some. cbn [rbind].
  now rewrite join_split.
Qed.

Lemma rewrite_plain_segments (p : Processor) (eligibility : Z) (d : ascii)
    (segs : list text) :
  forallb carries_no_field segs = true ->
  forall out,
    rewrite_segments p eligibility (out, Bound (Some d)) segs
    = inr (out ++ List.concat (map (fun s => str "~" ++ rstrip d s) segs),
           Bound (Some d)).
Proof.
  induction segs as [|s segs IH]; intros H out; cbn [rewrite_segments].
  - cbn. now rewrite app_nil_r.
  - cbn [forallb] in H. apply andb_prop in H. destruct H as [Hs H].
    rewrite (rewrite_plain_segment p eligibility out d s Hs). cbn [rbind].
    rewrite (IH H). cbn [map List.concat]. now rewrite <- !app_assoc.
Qed.

Lemma join_as_concat (sep first : text) (parts : list text) :
  join sep (first :: parts)
  = first ++ List.concat (map (fun s => sep ++ s) parts).
Proof.
  revert first. induction parts as [|x parts IH]; intros first.
  - cbn. now rewrite app_nil_r.
  - change (join sep (first :: x :: parts))
      with (first ++ sep ++ join sep (x :: parts)).
    rewrite IH. cbn [map List.concat]. now rewrite <- !app_assoc.
Qed.

(** X23. The loop of the callback, run over a header segment (an [ISA]
    segment whose fourth character is the delimiter) followed by segments
    that are no [ISA], [NM1], [TRN] or [EB] segment, builds the segments
    stripped of their trailing delimiters and joined with [~]: nothing else
    changes, whatever the processor holds and whatever the decision, and the
    output has no closing terminator. *)
Theorem template_without_fields_is_copied :
  forall (p : Processor) (eligibility : Z) (header : text) (d : ascii)
         (rest : list text),
    text_eqb (slice 0 3 header) (str "ISA") = true ->
    nth_error header 3 = Some d ->
    forallb carries_no_field rest = true ->
    rewrite_segments p eligibility ([], @Unbound (option ascii)) (header :: rest)
    = inr (join (str "~") (map (rstrip d) (header :: rest)), Bound (Some d)).
Proof.
  intros p eligibility header d rest Hh Hd Hr. cbn [rewrite_segments].
  pose proof (rewrite_header_segment p eligibility [] (@Unbound (option ascii))
                d header Hh Hd) as E.
  match goal with
  | |- context [rewrite_segment ?a ?b ?c ?s] =>
      rewrite (E : rewrite_segment a b c s = _)
  end.
  cbn [rbind]. rewrite (rewrite_plain_segments p eligibility d rest Hr).
  cbn [map]. rewrite join_as_concat, map_map. reflexivity.
Qed.

(** X23, at a template of a header and two envelope segments. *)
Lemma template_without_fields_is_copied_witness :
  rewrite_segments (proc translated_machine) 1 ([], @Unbound (option ascii))
    [str "ISA*00*"; str "ST*271*0001**"; str "SE*2*0001"]
  = inr (str "ISA*00~ST*271*0001~SE*2*0001", Bound (Some "*"%char)).
Proof.
  apply (template_without_fields_is_copied (proc translated_machine) 1
           (str "ISA*00*") "*"%char [str "ST*271*0001**"; str "SE*2*0001"]);
    reflexivity.
Defined.

Lemma element_set_short (els : list (option text)) (i : nat) (v : option text) :
  List.length els <= i ->
  element_set els i v = inl (IndexError "list assignment index out of range").
Proof.
  revert i. induction els as [|e els IH]; intros i H; [reflexivity|].
  destruct i as [|i]; cbn in H; [lia|].
  cbn [element_set]. rewrite IH by lia. reflexivity.
Qed.

Lemma element_set_long (els : list (option text)) (i : nat) (v : option text) :
  i < List.length els ->
  exists els',
    element_set els i v = inr els' /\ List.length els' = List.length els.
Proof.
  revert i. induction els as [|e els IH]; intros i H; cbn in H; [lia|].
  destruct i as [|i]; cbn [element_set]; [eauto|].
  destruct (IH i ltac:(lia)) as (els' & -> & L).
  eexists. split; [reflexivity|]. cbn. now rewrite L.
Qed.

Ltac set_element :=
  match goal with
  | |- context [element_set ?l ?i ?v] =>
      let Hle := fresh "Hle" in
      destruct (Nat.le_gt_cases (List.length l) i) as [Hle|Hle];
      [ rewrite (element_set_short l i v Hle); reflexivity
      | let e := fresh "e" in
        let E := fresh "E" in
        let L := fresh "L" in
        destruct (element_set_long l i v Hle) as (e & E & L);
        rewrite E; cbn [rbind] ]
  end.

(** X24. The callback writes the identity fields at fixed positions without
    looking at the length of the segment: an [NM1] segment of the template
    whose second element is [IL], [PR] or [1P] and that has fewer than ten
    elements makes the loop raise [IndexError]. *)
Theorem short_name_segment_raises :
  forall (p : Processor) (eligibility : Z) (out : text) (d : ascii)
         (segment : text) (qualifier : string),
    text_eqb (slice 0 3 segment) (str "NM1") = true ->
    nth_error (split d segment) 1 = Some (str qualifier) ->
    In qualifier ["IL"; "PR"; "1P"]%string ->
    List.length (split d segment) < 10 ->
    rewrite_segment p eligibility (out, Bound (Some d)) segment
    = inl (IndexError "list assignment index out of range").
Proof.
  intros p eligibility out d segment qualifier Hn Hq Hin Hlen.
  pose proof (text_eqb_eq _ _ Hn) as Hs.
  unfold rewrite_segment, nm1_with, elements, element_get. rewrite Hs.
  change (text_eqb (str "NM1") (str "ISA")) with false.
  change (text_eqb (str "NM1") (str "NM1")) with true.
  cbv iota. cbn [rbind].
  rewrite (map_nth_error Some 1 (split d segment) Hq). cbn [rbind].
  assert (Hl : List.length (map Some (split d segment)) < 10)
    by now rewrite length_map.
  revert Hl. generalize (map Some (split d segment)). intros els Hl.
  destruct Hin as [<-|[<-|[<-|[]]]];
    match goal with
    | |- context [text_eqb (str ?a) (str "IL")] =>
        let b := eval vm_compute in (text_eqb (str a) (str "IL")) in
        change (text_eqb (str a) (str "IL")) with b
    end;
    repeat match goal with
    | |- context [text_eqb (str ?a) (str ?c)] =>
        let b := eval vm_compute in (text_eqb (str a) (str c)) in
        change (text_eqb (str a) (str c)) with b
    end;
    cbv iota; cbn [rbind];
    repeat set_element; lia.
Qed.

(** X24, at a payer name segment of four elements. *)
Lemma short_name_segment_raises_witness :
  rewrite_segment (proc translated_machine) 1
    (str "ISA*00", Bound (Some "*"%char)) (str "NM1*PR*2*ACME")
  = inl (IndexError "list assignment index out of range").
Proof.
  apply (short_name_segment_raises (proc translated_machine) 1 (str "ISA*00")
           "*"%char (str "NM1*PR*2*ACME") "PR");
    [reflexivity|reflexivity|right; left; reflexivity|cbn; lia].
Defined.
